(** * Baseline RAG notebook: retrieval evaluation, answer evaluation and
      vector-store persistence

    A shallow embedding of the code cells of
    [06_sagemaker_fine_tuning/fine_tuning_workshop/2_build_baseline_rag.ipynb].

    Conventions of the embedding:
    - a Python [dict] read by key is a [gmap]; a missing key raises [KeyError];
    - Python exceptions are values of [exception], and code that may raise
      lives in the error monad [result];
    - Python [int] counters are [nat]; Python [float] arithmetic is idealised
      as exact arithmetic on the rationals [Q] (no rounding is modelled);
    - calls to services outside the notebook (the retrievers, the guardrail
      endpoint, FAISS and pickle) are parameters of the definitions that use
      them. *)

From Stdlib Require Import QArith Lqa.
From stdpp Require Import base option list gmap strings.

Local Open Scope string_scope.

(** ** Exceptions and the error monad *)

Inductive exception : Type :=
  | KeyError (key : string)
  | ValueError
  | IndexError
  | ZeroDivisionError
  | FileNotFoundError (path : string)
  | ClientError (msg : string)
  | UnpicklingError.

Inductive result (A : Type) : Type :=
  | Ok (a : A)
  | Raise (e : exception).
Arguments Ok {A} a.
Arguments Raise {A} e.

#[global] Instance result_ret : MRet result := @Ok.
#[global] Instance result_bind : MBind result := λ A B f m,
  match m with
  | Ok a => f a
  | Raise e => Raise e
  end.
#[global] Instance result_fmap : FMap result := λ A B f m,
  match m with
  | Ok a => Ok (f a)
  | Raise e => Raise e
  end.

Definition is_Ok {A} (m : result A) : Prop := ∃ a, m = Ok a.

(** ** Python primitives used by the cells *)

(** [d[key]] on a dict. *)
Definition getitem {V} (d : gmap string V) (key : string) : result V :=
  match d !! key with
  | Some v => Ok v
  | None => Raise (KeyError key)
  end.

(** [l[i]] on a list, for a non-negative [i]. *)
Definition list_getitem {A} (l : list A) (i : nat) : result A :=
  match l !! i with
  | Some v => Ok v
  | None => Raise IndexError
  end.

(** [x in l]. *)
Definition py_in (x : string) (l : list string) : bool :=
  bool_decide (x ∈ l).

(** [l.index(x)]: the position of the first element equal to [x]. *)
Fixpoint index (l : list string) (x : string) : result nat :=
  match l with
  | [] => Raise ValueError
  | y :: l' =>
      if decide (y = x) then Ok 0%nat
      else i ← index l' x; Ok (S i)
  end.

Definition Qnat (n : nat) : Q := inject_Z (Z.of_nat n).

(** [a / b], true division. *)
Definition truediv (a b : Q) : result Q :=
  if Qeq_bool b 0 then Raise ZeroDivisionError else Ok (a / b)%Q.

(** [sum(l)]. *)
Definition py_sum (l : list Q) : Q := foldr Qplus 0%Q l.

(** A [for] loop whose body updates an accumulator and may raise. *)
Fixpoint for_each {A S} (body : S → A → result S) (l : list A) (s : S)
  : result S :=
  match l with
  | [] => Ok s
  | x :: l' => s' ← body s x; for_each body l' s'
  end.

(** ** Data *)

(** A LangChain [Document]. *)
Record Document : Type := {
  page_content : string;
  metadata : gmap string string
}.

(** An entry of [retriever_evaluation_data] (cell 11). *)
Record EvalRecord : Type := {
  ref_doc_id : string;
  question : string
}.

(** ** Cells 13 and 15: retriever evaluation *)

Module Retrieval.

(** [num_examples = 400  # Number of examples to evaluate] *)
Definition num_examples : nat := 400.

Section Evaluation.
(** [retriever.invoke]: the dense retriever in cell 13, the ensemble
    retriever in cell 15. *)
Variable invoke : string → list Document.

(** [[doc.metadata["unique_id"] for doc in returned_docs]] *)
Definition doc_ids (returned_docs : list Document) : result (list string) :=
  mapM (λ doc, getitem (metadata doc) "unique_id") returned_docs.

(** The body of the evaluation loop; the state is
    [(correct, reciprocal_rank)]. *)
Definition loop_body (st : nat * Q) (eval_data : EvalRecord)
  : result (nat * Q) :=
  let '(correct, reciprocal_rank) := st in
  let returned_docs := invoke (question eval_data) in
  returned_doc_ids ← doc_ids returned_docs;
  if py_in (ref_doc_id eval_data) returned_doc_ids then
    i ← index returned_doc_ids (ref_doc_id eval_data);
    r ← truediv 1 (Qnat (i + 1));
    Ok ((correct + 1)%nat, (reciprocal_rank + r)%Q)
  else
    Ok (correct, reciprocal_rank).

(** The whole cell, with [num_examples] as in the source a name bound
    before the loop; the result is [(hit_rate, mrr)]. *)
Definition evaluate (num_examples : nat)
    (retriever_evaluation_data : list EvalRecord) : result (Q * Q) :=
  '(correct, reciprocal_rank) ←
    for_each loop_body (take num_examples retriever_evaluation_data)
             (0%nat, 0%Q);
  hit_rate ← truediv (Qnat correct) (Qnat num_examples);
  mrr ← truediv reciprocal_rank (Qnat num_examples);
  Ok (hit_rate, mrr).

(** The cell as it stands in the notebook. *)
Definition evaluate_cell (retriever_evaluation_data : list EvalRecord)
  : result (Q * Q) :=
  evaluate num_examples retriever_evaluation_data.
End Evaluation.

End Retrieval.

(** ** Cells 25 and 29: answer evaluation with the guardrail *)

Module Guardrail.

(** One entry of [guardrail_payload]. *)
Record ContentBlock : Type := {
  text : string;
  qualifiers : list string
}.

(** One entry of a contextual grounding policy's ["filters"]. *)
Record Metric : Type := {
  type : string;
  score : Q
}.

(** The value under ["contextualGroundingPolicy"]. *)
Record Policy : Type := {
  filters : list Metric
}.

(** The response of [apply_guardrail]: the list under ["assessments"], each
    assessment a dict from policy name to policy. *)
Record Response : Type := {
  assessments : list (gmap string Policy)
}.

(** The dict returned by [invoke_rag_eval_guardrail]. *)
Record AnswerScore : Type := {
  grounding_score : Q;
  relevance_score : Q
}.

Section Scoring.
(** [bedrock_runtime.apply_guardrail(guardrailIdentifier, guardrailVersion,
    source, content)] *)
Variable apply_guardrail :
  string → string → string → list ContentBlock → result Response.

Definition has_type (t : string) (metric : Metric) : bool :=
  bool_decide (type metric = t).

Definition invoke_rag_eval_guardrail
    (guardrail_id question context response : string)
  : result AnswerScore :=
  let guardrail_payload :=
    [ {| text := context; qualifiers := ["grounding_source"] |};
      {| text := question; qualifiers := ["query"] |};
      {| text := response; qualifiers := [] |} ] in
  response ← apply_guardrail guardrail_id "1" "OUTPUT" guardrail_payload;
  assessment ← list_getitem (assessments response) 0;
  policy ← getitem assessment "contextualGroundingPolicy";
  let assessments := filters policy in
  grounding ← list_getitem (filter (has_type "GROUNDING") assessments) 0;
  relevance ← list_getitem (filter (has_type "RELEVANCE") assessments) 0;
  Ok {| grounding_score := score grounding;
        relevance_score := score relevance |}.

(** The separator of ["\n".join(context)]. *)
Definition newline : string := String (Ascii.ascii_of_nat 10) EmptyString.

(** [zip(questions, contexts, answers)]: stops at the shortest list. *)
Fixpoint zip3 {A B C} (l1 : list A) (l2 : list B) (l3 : list C)
  : list (A * B * C) :=
  match l1, l2, l3 with
  | a :: l1', b :: l2', c :: l3' => (a, b, c) :: zip3 l1' l2' l3'
  | _, _, _ => []
  end.

(** What the future returned by [executor.submit] holds once the call has
    run: the call's return value or the exception it raised. The calls do
    not share state, so each outcome is that of the call run alone. *)
Definition submit (guardrail_id : string)
    (triple : string * list string * string) : result AnswerScore :=
  let '(question, context, answer) := triple in
  invoke_rag_eval_guardrail guardrail_id question
    (String.concat newline context) answer.

(** The [with] block ends when every submitted call has run; then
    [result.result()] is taken from the futures in submission order and
    re-raises the exception of a failed call. The result is
    [(grounding_score, relevance_score)]. *)
Definition evaluate_rag_guardrail (guardrail_id : string)
    (questions : list string) (contexts : list (list string))
    (answers : list string) : result (Q * Q) :=
  let results := map (submit guardrail_id) (zip3 questions contexts answers) in
  eval_rows ← mapM (λ future, future) results;
  let grounding_scores := map grounding_score eval_rows in
  let relevance_scores := map relevance_score eval_rows in
  grounding_score ←
    truediv (py_sum grounding_scores) (Qnat (length grounding_scores));
  relevance_score ←
    truediv (py_sum relevance_scores) (Qnat (length relevance_scores));
  Ok (grounding_score, relevance_score).
End Scoring.

End Guardrail.

(** ** Cell 9: the persisted vector store *)

Module VectorStore.

Abbreviation bytes := (list Byte.byte).

(** [vector_store_file = "baseline_rag_vec_db.pkl"] *)
Definition vector_store_file : string := "baseline_rag_vec_db.pkl".

Section Cell.
(** The FAISS store and the library calls on it. *)
Variable VecDB : Type.
(** [FAISS.from_documents(documents, embed_model)] *)
Variable from_documents : list Document → VecDB.
(** [vec_db.serialize_to_bytes()] *)
Variable serialize_to_bytes : VecDB → bytes.
(** [FAISS.deserialize_from_bytes(serialized=..., embeddings=embed_model,
    allow_dangerous_deserialization=True)] *)
Variable deserialize_from_bytes : bytes → result VecDB.
(** [pickle.dump] of a bytes object, as the file content it writes, and
    [pickle.load] of a file content. *)
Variable pickle_dump : bytes → bytes.
Variable pickle_load : bytes → result bytes.

(** The files of the working directory: path to content. *)
Abbreviation files := (gmap string bytes).

(** [Path(p).exists()] *)
Definition exists_ (fs : files) (p : string) : bool :=
  bool_decide (is_Some (fs !! p)).

(** [open(p, "rb")] followed by reading the whole content. *)
Definition open_rb (fs : files) (p : string) : result bytes :=
  match fs !! p with
  | Some content => Ok content
  | None => Raise (FileNotFoundError p)
  end.

(** The cell: from the files before and the documents, the files after and
    [vec_db] (or the exception raised). *)
Definition cell9 (documents : list Document) (fs : files)
  : files * result VecDB :=
  let CREATE_NEW := negb (exists_ fs vector_store_file) in
  if CREATE_NEW then
    let vec_db := from_documents documents in
    (<[vector_store_file := pickle_dump (serialize_to_bytes vec_db)]> fs,
     Ok vec_db)
  else
    if negb (exists_ fs vector_store_file) then
      (fs, Raise (FileNotFoundError vector_store_file))
    else
      (fs,
       content ← open_rb fs vector_store_file;
       vector_db_buff ← pickle_load content;
       deserialize_from_bytes vector_db_buff).
End Cell.

End VectorStore.

(** ** The metrics as the specification words them *)

Module Metrics.

Section Metrics.
Variable invoke : string → list Document.

(** The ids carried by the documents returned for an example's question. *)
Definition returned_ids (example : EvalRecord) : list string :=
  omap (λ doc, metadata doc !! "unique_id") (invoke (question example)).

(** Every returned document carries a ["unique_id"]. *)
Definition well_formed (example : EvalRecord) : Prop :=
  Forall (λ doc, is_Some (metadata doc !! "unique_id"))
         (invoke (question example)).

(** The 1-based position of the first occurrence of [ref] in [ids]. *)
Definition rank (ids : list string) (ref : string) : option nat :=
  (λ found, S found.1) <$> list_find (λ id, id = ref) ids.

(** The reciprocal of the rank, [0] when the id is absent. *)
Definition reciprocal_rank (ids : list string) (ref : string) : Q :=
  match rank ids ref with
  | Some r => (1 / Qnat r)%Q
  | None => 0%Q
  end.

Definition example_reciprocal_rank (example : EvalRecord) : Q :=
  reciprocal_rank (returned_ids example) (ref_doc_id example).

(** The reference document appears anywhere in the returned list. *)
Definition is_hit (example : EvalRecord) : bool :=
  bool_decide (ref_doc_id example ∈ returned_ids example).

Definition hit_count (examples : list EvalRecord) : nat :=
  length (filter (λ example, is_hit example = true) examples).

Definition reciprocal_rank_sum (examples : list EvalRecord) : Q :=
  py_sum (map example_reciprocal_rank examples).
End Metrics.

End Metrics.

(** [pos] is the lowest index at which [ids] holds [ref], or [None] when
    [ids] does not hold it. *)
Definition first_occurrence_at (ids : list string) (ref : string)
    (pos : option nat) : Prop :=
  match pos with
  | Some i =>
      ids !! i = Some ref ∧ ∀ j, (j < i)%nat → ids !! j ≠ Some ref
  | None => ref ∉ ids
  end.

(** The reciprocal of the 1-based rank of that index, 0 without one. *)
Definition first_occurrence_term (pos : option nat) : Q :=
  match pos with
  | Some i => (1 / Qnat (i + 1))%Q
  | None => 0%Q
  end.

#[global] Instance well_formed_dec invoke example :
  Decision (Metrics.well_formed invoke example).
Proof. unfold Metrics.well_formed. apply _. Defined.

(** ** Small concrete inputs *)

Module Samples.

Definition mk_doc (id : string) : Document :=
  {| page_content := "section " +:+ id;
     metadata := {[ "unique_id" := id ]} |}.

(** A retriever with [k = 3] that finds document ["a"] at rank 1 for ["q1"],
    at rank 2 for ["q2"], and not at all otherwise. *)
Definition toy_invoke (q : string) : list Document :=
  if decide (q = "q1") then [mk_doc "a"; mk_doc "b"; mk_doc "c"]
  else if decide (q = "q2") then [mk_doc "b"; mk_doc "a"; mk_doc "c"]
  else [mk_doc "x"; mk_doc "y"; mk_doc "z"].

Definition toy_data : list EvalRecord :=
  [ {| ref_doc_id := "a"; question := "q1" |};
    {| ref_doc_id := "a"; question := "q2" |};
    {| ref_doc_id := "a"; question := "q3" |};
    {| ref_doc_id := "a"; question := "q4" |} ].

(** More examples than the cell reads: 400 misses, then a hit at rank 1. *)
Definition long_data : list EvalRecord :=
  replicate 400 {| ref_doc_id := "a"; question := "q3" |}
  ++ [ {| ref_doc_id := "a"; question := "q1" |} ].

(** A retriever that returns the reference document twice. *)
Definition dup_invoke (q : string) : list Document :=
  [mk_doc "b"; mk_doc "a"; mk_doc "a"].

Definition dup_example : EvalRecord :=
  {| ref_doc_id := "a"; question := "q" |}.

(** Three examples for that retriever, and where each reference id first
    occurs in what it returns. *)
Definition dup_data : list EvalRecord :=
  [ dup_example;
    {| ref_doc_id := "b"; question := "q" |};
    {| ref_doc_id := "z"; question := "q" |} ].

Definition dup_first (example : EvalRecord) : option nat :=
  if decide (ref_doc_id example = "a") then Some 1%nat
  else if decide (ref_doc_id example = "b") then Some 0%nat
  else None.

(** A guardrail endpoint that is throttled on the question ["bad"], leaves
    out the grounding metric on the question ["vague"], and otherwise
    answers with both metrics. *)
Definition toy_filters : list Guardrail.Metric :=
  [ {| Guardrail.type := "GROUNDING"; Guardrail.score := 9 # 10 |};
    {| Guardrail.type := "RELEVANCE"; Guardrail.score := 8 # 10 |} ].

Definition toy_response (metrics : list Guardrail.Metric)
  : Guardrail.Response :=
  {| Guardrail.assessments :=
       [ {[ "contextualGroundingPolicy" :=
              {| Guardrail.filters := metrics |} ]} ] |}.

Definition toy_apply_guardrail (guardrail_id version source : string)
    (content : list Guardrail.ContentBlock) : result Guardrail.Response :=
  match content !! 1%nat with
  | Some block =>
      if decide (Guardrail.text block = "bad")
      then Raise (ClientError "ThrottlingException")
      else if decide (Guardrail.text block = "vague")
      then Ok (toy_response (drop 1 toy_filters))
      else Ok (toy_response toy_filters)
  | None => Raise (ClientError "ValidationException")
  end.

(** A stand-in for FAISS and pickle: the store is the bytes of the page
    contents, and a pickled file starts with the protocol byte. *)
Definition toy_from_documents (documents : list Document) : list Byte.byte :=
  concat (map (λ doc, String.list_byte_of_string (page_content doc)) documents).

Definition toy_pickle_dump (b : list Byte.byte) : list Byte.byte :=
  Byte.x80 :: b.

Definition toy_pickle_load (content : list Byte.byte)
  : result (list Byte.byte) :=
  match content with
  | Byte.x80 :: b => Ok b
  | _ => Raise UnpicklingError
  end.

Definition toy_cell9 :=
  VectorStore.cell9 (list Byte.byte) toy_from_documents (λ b, b) Ok
    toy_pickle_dump toy_pickle_load.

End Samples.

(** ** Cells 4 and 11: ingestion of the prepared data *)

Module Ingestion.

(** A line of the prepared data once parsed and its keys read. The keys the
    cells read are fields here, so [json_loads] below stands for
    [json.loads] followed by those reads: it fails on a line that is not
    JSON and on a record lacking a key, and the properties of these cells
    are stated for runs that return. *)
Record PreparedRecord : Type := {
  ref_doc_id : string;
  context : string;
  section_metadata : gmap string string;
  question : string;
  answer : string
}.

(** [Document(page_content=json_record["context"],
              metadata=json_record["section_metadata"])] *)
Definition make_document (json_record : PreparedRecord) : Document :=
  {| page_content := context json_record;
     metadata := section_metadata json_record |}.

Section Cell.
(** [json.loads] on a line of the prepared data. *)
Variable json_loads : string → result PreparedRecord.

(** The body of the loop of cell 4; the state is [(doc_ids, documents)]. *)
Definition ingest_body (st : list string * list Document) (record : string)
  : result (list string * list Document) :=
  let '(doc_ids, documents) := st in
  json_record ← json_loads record;
  if negb (py_in (ref_doc_id json_record) doc_ids) then
    let doc_ids := (doc_ids ++ [ref_doc_id json_record])%list in
    let doc := make_document json_record in
    Ok (doc_ids, (documents ++ [doc])%list)
  else
    Ok (doc_ids, documents).

(** Cell 4: the loop over [chain(train_data, test_data)]. *)
Definition cell4 (train_data test_data : list string)
  : result (list string * list Document) :=
  for_each ingest_body (train_data ++ test_data)%list ([], []).
End Cell.

End Ingestion.

Module EvaluationData.

Section Cell.
Variable json_loads : string → result Ingestion.PreparedRecord.

(** The body of the loop of cell 11; the state is
    [retriever_evaluation_data]. *)
Definition append_body (retriever_evaluation_data : list EvalRecord)
    (record : string) : result (list EvalRecord) :=
  json_record ← json_loads record;
  Ok (retriever_evaluation_data ++
      [ {| ref_doc_id := Ingestion.ref_doc_id json_record;
           question := Ingestion.question json_record |} ])%list.

(** Cell 11. *)
Definition cell11 (test_data : list string) : result (list EvalRecord) :=
  for_each append_body test_data [].
End Cell.

End EvaluationData.

(** Line [j] of [lines] parses to the record [r]. *)
Definition parsed_at (json_loads : string → result Ingestion.PreparedRecord)
    (lines : list string) (j : nat) (r : Ingestion.PreparedRecord) : Prop :=
  ∃ line, lines !! j = Some line ∧ json_loads line = Ok r.

(** The evaluation entry cell 11 makes of a record. *)
Definition evaluation_entry (r : Ingestion.PreparedRecord) : EvalRecord :=
  {| ref_doc_id := Ingestion.ref_doc_id r;
     question := Ingestion.question r |}.

(** The content [invoke_rag_eval_guardrail] sends to the endpoint. *)
Definition guardrail_content (question context response : string)
  : list Guardrail.ContentBlock :=
  [ {| Guardrail.text := context;
       Guardrail.qualifiers := ["grounding_source"] |};
    {| Guardrail.text := question; Guardrail.qualifiers := ["query"] |};
    {| Guardrail.text := response; Guardrail.qualifiers := [] |} ].

(** ** Cells 13 and 15 with a retriever call that may raise *)

Module FallibleRetrieval.

Section Evaluation.
(** [retriever.invoke]: the documents it returns, or the exception of a
    failed embedding or search request. *)
Variable invoke : string → result (list Document).

(** The body of the evaluation loop; the state is
    [(correct, reciprocal_rank)]. *)
Definition loop_body (st : nat * Q) (eval_data : EvalRecord)
  : result (nat * Q) :=
  let '(correct, reciprocal_rank) := st in
  returned_docs ← invoke (question eval_data);
  returned_doc_ids ← Retrieval.doc_ids returned_docs;
  if py_in (ref_doc_id eval_data) returned_doc_ids then
    i ← index returned_doc_ids (ref_doc_id eval_data);
    r ← truediv 1 (Qnat (i + 1));
    Ok ((correct + 1)%nat, (reciprocal_rank + r)%Q)
  else
    Ok (correct, reciprocal_rank).

(** The whole cell; the result is [(hit_rate, mrr)]. *)
Definition evaluate (num_examples : nat)
    (retriever_evaluation_data : list EvalRecord) : result (Q * Q) :=
  '(correct, reciprocal_rank) ←
    for_each loop_body (take num_examples retriever_evaluation_data)
             (0%nat, 0%Q);
  hit_rate ← truediv (Qnat correct) (Qnat num_examples);
  mrr ← truediv reciprocal_rank (Qnat num_examples);
  Ok (hit_rate, mrr).

(** The retriever returns for the example's question, and every document
    it returns carries a ["unique_id"]. *)
Definition retrieves (example : EvalRecord) : Prop :=
  ∃ returned_docs, invoke (question example) = Ok returned_docs ∧
    Forall (λ doc, is_Some (metadata doc !! "unique_id")) returned_docs.
End Evaluation.

End FallibleRetrieval.

(** The length of the shortest of the three lists of a batch. *)
Definition shortest (questions : list string) (contexts : list (list string))
    (answers : list string) : nat :=
  length questions `min` (length contexts `min` length answers).

(** ** Further concrete inputs *)

Module MoreSamples.

(** A parser for lines of the form [id|question]; a line without the
    separator is not valid. *)
Fixpoint split_bar (line : string) : option (string * string) :=
  match line with
  | EmptyString => None
  | String c rest =>
      if decide (c = Ascii.ascii_of_nat 124) then Some (EmptyString, rest)
      else '(id, q) ← split_bar rest; Some (String c id, q)
  end.

Definition toy_json_loads (line : string) : result Ingestion.PreparedRecord :=
  match split_bar line with
  | Some (id, q) =>
      Ok {| Ingestion.ref_doc_id := id;
            Ingestion.context := "section " +:+ id;
            Ingestion.section_metadata := {[ "unique_id" := id ]};
            Ingestion.question := q;
            Ingestion.answer := "answer to " +:+ q |}
  | None => Raise ValueError
  end.

Definition toy_train : list string := ["a|q1"; "b|q2"; "a|q3"].
Definition toy_test : list string := ["b|q4"; "c|q5"].

(** A document without the ["unique_id"] key. *)
Definition anonymous_doc : Document :=
  {| page_content := "no id"; metadata := {[ "title" := "untitled" ]} |}.

(** A retriever that answers like [toy_invoke] on the questions of
    [toy_data] and with an id-less document elsewhere. *)
Definition anonymous_invoke_late (q : string) : list Document :=
  if bool_decide (q ∈ ["q1"; "q2"; "q3"; "q4"]) then Samples.toy_invoke q
  else [anonymous_doc].

(** A retriever whose request for ["q3"] is throttled. *)
Definition throttled_invoke (q : string) : result (list Document) :=
  if decide (q = "q3") then Raise (ClientError "ThrottlingException")
  else Ok (Samples.toy_invoke q).

(** An endpoint whose answer repeats both metric types and carries a second
    assessment. *)
Definition repeated_filters : list Guardrail.Metric :=
  [ {| Guardrail.type := "RELEVANCE"; Guardrail.score := 7 # 10 |};
    {| Guardrail.type := "GROUNDING"; Guardrail.score := 9 # 10 |};
    {| Guardrail.type := "GROUNDING"; Guardrail.score := 1 # 10 |};
    {| Guardrail.type := "RELEVANCE"; Guardrail.score := 2 # 10 |} ].

Definition repeating_response : Guardrail.Response :=
  {| Guardrail.assessments :=
       [ {[ "contextualGroundingPolicy" :=
              {| Guardrail.filters := repeated_filters |} ]}; ∅ ] |}.

Definition repeating_apply_guardrail (guardrail_id version source : string)
    (content : list Guardrail.ContentBlock) : result Guardrail.Response :=
  Ok repeating_response.

End MoreSamples.

(** * Properties *)

(** Settles a decidable proposition about concrete data by evaluation. *)
Ltac by_evaluation :=
  apply (bool_decide_eq_true_1 _); vm_compute; reflexivity.

(** ** The error monad and the primitives *)

Lemma bind_Ok {A B} (m : result A) (f : A → result B) (b : B) :
  m ≫= f = Ok b ↔ ∃ a, m = Ok a ∧ f a = Ok b.
Proof.
  destruct m as [a|e]; simpl.
  - split; [eauto | intros (a' & [= ->] & Hf); exact Hf].
  - split; [discriminate | intros (a' & [=] & _)].
Qed.

Lemma getitem_Ok {V} (d : gmap string V) (key : string) (v : V) :
  getitem d key = Ok v ↔ d !! key = Some v.
Proof.
  unfold getitem. destruct (d !! key); split; congruence.
Qed.

Lemma Qnat_nonneg (n : nat) : (0 <= Qnat n)%Q.
Proof.
  unfold Qnat, Qle. simpl. lia.
Qed.

Lemma Qnat_pos (n : nat) : (0 < n)%nat → (0 < Qnat n)%Q.
Proof.
  intros Hn. unfold Qnat, Qlt. simpl. lia.
Qed.

Lemma Qnat_nonzero (n : nat) : (0 < n)%nat → ¬ (Qnat n == 0)%Q.
Proof.
  intros Hn%Qnat_pos Hz. rewrite Hz in Hn. by apply Qlt_irrefl in Hn.
Qed.

Lemma Qnat_le (n m : nat) : (n ≤ m)%nat → (Qnat n <= Qnat m)%Q.
Proof.
  intros Hnm. unfold Qnat, Qle. simpl. lia.
Qed.

Lemma Qnat_add (n m : nat) : (Qnat (n + m) == Qnat n + Qnat m)%Q.
Proof.
  unfold Qnat. rewrite Nat2Z.inj_add, inject_Z_plus. reflexivity.
Qed.

Lemma truediv_Ok (a b : Q) : ¬ (b == 0)%Q → truediv a b = Ok (a / b)%Q.
Proof.
  intros Hb. unfold truediv.
  destruct (Qeq_bool b 0) eqn:E; [|reflexivity].
  apply Qeq_bool_iff in E. contradiction.
Qed.

Lemma truediv_inv (a b q : Q) :
  truediv a b = Ok q → ¬ (b == 0)%Q ∧ q = (a / b)%Q.
Proof.
  unfold truediv. destruct (Qeq_bool b 0) eqn:E; [discriminate|].
  intros [= <-]. split; [|reflexivity].
  intros Hb. apply Qeq_bool_iff in Hb. congruence.
Qed.

(** [index] finds the first occurrence, and only raises on an absent id. *)
Lemma index_first (ids : list string) (ref : string) (i : nat) :
  ids !! i = Some ref →
  (∀ j, (j < i)%nat → ids !! j ≠ Some ref) →
  index ids ref = Ok i.
Proof.
  revert i. induction ids as [|y ids IH]; intros i Hi Hfirst; [done|].
  simpl. destruct (decide (y = ref)) as [->|Hne].
  - destruct i as [|i]; [done|].
    exfalso. apply (Hfirst 0%nat); [lia | done].
  - destruct i as [|i]; [simpl in Hi; congruence|].
    rewrite (IH i); [done | done |].
    intros j Hj. apply (Hfirst (S j)). lia.
Qed.

Lemma index_find (ids : list string) (ref : string) :
  match list_find (λ id, id = ref) ids with
  | Some (i, _) => index ids ref = Ok i
  | None => index ids ref = Raise ValueError ∧ ref ∉ ids
  end.
Proof.
  destruct (list_find _ ids) as [[i x]|] eqn:E.
  - apply list_find_Some in E as (Hi & -> & Hfirst).
    apply index_first; [done|].
    intros j Hj Hjx. by apply (Hfirst j ref).
  - apply list_find_None in E.
    assert (ref ∉ ids) as Hnot.
    { intros Hin. rewrite Forall_forall in E. by apply (E ref). }
    split; [|done]. clear E.
    induction ids as [|y ids IH]; [done|].
    simpl. apply not_elem_of_cons in Hnot as [Hne Hnot].
    destruct (decide (y = ref)); [congruence|].
    by rewrite IH.
Qed.

(** ** Retriever evaluation: the loop *)

Section RetrievalLoop.
Variable invoke : string → list Document.

Import Retrieval Metrics.

Lemma doc_ids_cons (doc : Document) (docs : list Document) :
  doc_ids (doc :: docs) =
  id ← getitem (metadata doc) "unique_id";
  ids ← doc_ids docs; Ok (id :: ids).
Proof. reflexivity. Qed.

Lemma doc_ids_Ok (docs : list Document) (ids : list string) :
  doc_ids docs = Ok ids →
  omap (λ doc, metadata doc !! "unique_id") docs = ids.
Proof.
  revert ids. induction docs as [|doc docs IH]; intros ids.
  - by intros [= <-].
  - rewrite doc_ids_cons.
    intros (id & Hid%getitem_Ok & (ids' & Hids' & [= <-])%bind_Ok)%bind_Ok.
    simpl. rewrite Hid. f_equal. by apply IH.
Qed.

Lemma doc_ids_total (docs : list Document) :
  Forall (λ doc, is_Some (metadata doc !! "unique_id")) docs →
  is_Ok (doc_ids docs).
Proof.
  induction 1 as [|doc docs [id Hid%getitem_Ok] _ [ids IH]]; [by eexists|].
  exists (id :: ids). rewrite doc_ids_cons, Hid, IH. reflexivity.
Qed.

Lemma reciprocal_rank_hit (ids : list string) (ref : string) :
  ref ∈ ids →
  ∃ i, index ids ref = Ok i ∧ reciprocal_rank ids ref = (1 / Qnat (i + 1))%Q.
Proof.
  intros Hin. pose proof (index_find ids ref) as Hfind.
  unfold reciprocal_rank, rank.
  destruct (list_find _ ids) as [[i x]|]; [|by destruct Hfind].
  exists i. split; [done|]. simpl. by rewrite Nat.add_1_r.
Qed.

Lemma reciprocal_rank_miss (ids : list string) (ref : string) :
  ref ∉ ids → reciprocal_rank ids ref = 0%Q.
Proof.
  intros Hnot. unfold reciprocal_rank, rank.
  destruct (list_find _ ids) as [[i x]|] eqn:E; [|done].
  apply list_find_Some in E as (Hi & -> & _).
  exfalso. apply Hnot. by eapply list_elem_of_lookup_2.
Qed.

Lemma reciprocal_rank_bounds (ids : list string) (ref : string) :
  (0 <= reciprocal_rank ids ref)%Q ∧
  (reciprocal_rank ids ref <= (if bool_decide (ref ∈ ids) then 1 else 0))%Q.
Proof.
  case_bool_decide as Hin.
  - destruct (reciprocal_rank_hit ids ref Hin) as (i & _ & ->).
    assert (1 <= Qnat (i + 1))%Q as Hge.
    { change 1%Q with (Qnat 1). apply Qnat_le. lia. }
    split.
    + apply Qle_shift_div_l; lra.
    + apply Qle_shift_div_r; lra.
  - rewrite (reciprocal_rank_miss ids ref Hin). split; lra.
Qed.

(** One iteration: a hit adds one to [correct] and the reciprocal rank to
    [reciprocal_rank]; a miss changes nothing. *)
Lemma loop_body_Ok (c c' : nat) (rr rr' : Q) (example : EvalRecord) :
  loop_body invoke (c, rr) example = Ok (c', rr') →
  c' = (c + (if is_hit invoke example then 1 else 0))%nat ∧
  (rr' == rr + example_reciprocal_rank invoke example)%Q.
Proof.
  unfold loop_body, is_hit, example_reciprocal_rank, returned_ids.
  intros (ids & Hids & Hrest)%bind_Ok.
  apply doc_ids_Ok in Hids. rewrite Hids. clear Hids.
  unfold py_in in Hrest. case_bool_decide as Hin.
  - destruct (reciprocal_rank_hit ids _ Hin) as (i & Hi & ->).
    rewrite Hi in Hrest. simpl in Hrest.
    rewrite truediv_Ok in Hrest.
    + simpl in Hrest. injection Hrest as <- <-. split; [done | reflexivity].
    + apply Qnat_nonzero. lia.
  - injection Hrest as <- <-. rewrite (reciprocal_rank_miss _ _ Hin).
    split; [lia | lra].
Qed.

Lemma loop_body_total (st : nat * Q) (example : EvalRecord) :
  well_formed invoke example → is_Ok (loop_body invoke st example).
Proof.
  intros [ids Hids]%doc_ids_total. destruct st as [c rr].
  unfold loop_body. rewrite Hids. simpl.
  unfold py_in. case_bool_decide as Hin; [|by eexists].
  destruct (reciprocal_rank_hit ids _ Hin) as (i & -> & _). simpl.
  rewrite truediv_Ok; [by eexists|].
  apply Qnat_nonzero. lia.
Qed.

Lemma loop_Ok (examples : list EvalRecord) (c c' : nat) (rr rr' : Q) :
  for_each (loop_body invoke) examples (c, rr) = Ok (c', rr') →
  c' = (c + hit_count invoke examples)%nat ∧
  (rr' == rr + reciprocal_rank_sum invoke examples)%Q.
Proof.
  revert c rr. induction examples as [|ex examples IH]; intros c rr.
  - simpl. intros [= <- <-]. unfold hit_count, reciprocal_rank_sum. simpl.
    split; [lia | lra].
  - simpl. intros ([c1 rr1] & Hbody & Hloop)%bind_Ok.
    apply loop_body_Ok in Hbody as [-> Hrr1].
    apply IH in Hloop as [-> Hrr'].
    unfold hit_count, reciprocal_rank_sum in *. simpl.
    destruct (is_hit invoke ex) eqn:Hhit.
    + rewrite filter_cons_True by done. simpl. split; [lia | lra].
    + rewrite filter_cons_False by congruence. split; [lia | lra].
Qed.

Lemma loop_total (examples : list EvalRecord) (st : nat * Q) :
  Forall (well_formed invoke) examples →
  is_Ok (for_each (loop_body invoke) examples st).
Proof.
  intros Hwf. revert st.
  induction Hwf as [|ex examples Hex _ IH]; intros st; [by eexists|].
  simpl. destruct (loop_body_total st ex Hex) as [st' ->]. simpl. apply IH.
Qed.

Lemma hit_count_le (examples : list EvalRecord) :
  (hit_count invoke examples ≤ length examples)%nat.
Proof. apply length_filter. Qed.

Lemma reciprocal_rank_sum_bounds (examples : list EvalRecord) :
  (0 <= reciprocal_rank_sum invoke examples)%Q ∧
  (reciprocal_rank_sum invoke examples <= Qnat (hit_count invoke examples))%Q.
Proof.
  unfold reciprocal_rank_sum, hit_count.
  induction examples as [|ex examples [IH0 IH1]]; simpl.
  - split; [lra | apply Qnat_nonneg].
  - pose proof (reciprocal_rank_bounds (returned_ids invoke ex)
                  (ref_doc_id ex)) as [H0 H1].
    fold (is_hit invoke ex) in H1.
    fold (example_reciprocal_rank invoke ex) in H0, H1.
    destruct (is_hit invoke ex) eqn:Hhit.
    + rewrite filter_cons_True by done. simpl length.
      change (S ?n) with (1 + n)%nat. rewrite Qnat_add.
      change (Qnat 1) with 1%Q. split; lra.
    + rewrite filter_cons_False by congruence. split; lra.
Qed.
End RetrievalLoop.

(** ** Retriever evaluation: the cell *)

Section RetrievalCell.
Variable invoke : string → list Document.

Import Retrieval Metrics.

(** What the cell returns, when it returns: both metrics are taken over the
    first [n] examples and divided by [n]. *)
Lemma evaluate_Ok (n : nat) (data : list EvalRecord) (h m : Q) :
  evaluate invoke n data = Ok (h, m) →
  (0 < n)%nat ∧
  (h == Qnat (hit_count invoke (take n data)) / Qnat n)%Q ∧
  (m == reciprocal_rank_sum invoke (take n data) / Qnat n)%Q.
Proof.
  unfold evaluate.
  intros ([c rr] & Hloop & (h' & Hh & (m' & Hm & [= <- <-])%bind_Ok)%bind_Ok)
    %bind_Ok.
  apply loop_Ok in Hloop as [-> Hrr].
  apply truediv_inv in Hh as [Hn ->]. apply truediv_inv in Hm as [_ ->].
  split; [|split].
  - destruct n; [|lia]. exfalso. by apply Hn.
  - reflexivity.
  - rewrite Hrr. field. exact Hn.
Qed.

(** The cell returns when [n] is positive and every document returned for
    the first [n] examples carries its id. *)
Lemma evaluate_total (n : nat) (data : list EvalRecord) :
  (0 < n)%nat →
  Forall (well_formed invoke) (take n data) →
  is_Ok (evaluate invoke n data).
Proof.
  intros Hn Hwf. unfold evaluate.
  destruct (loop_total invoke (take n data) (0%nat, 0%Q) Hwf) as [[c rr] ->].
  simpl. rewrite !truediv_Ok by (by apply Qnat_nonzero). by eexists.
Qed.

Lemma Qdiv_le_compat (a b c : Q) : (0 < c → a <= b → a / c <= b / c)%Q.
Proof.
  intros Hc Hab. unfold Qdiv. apply Qmult_le_compat_r; [done|].
  apply Qinv_le_0_compat. lra.
Qed.

Lemma Qdiv_unit (a c : Q) : (0 < c → 0 <= a → a <= c → 0 <= a / c <= 1)%Q.
Proof.
  intros Hc H0 H1. split.
  - apply Qle_shift_div_l; lra.
  - apply Qle_shift_div_r; lra.
Qed.

(** The order [0 <= reciprocal_rank <= correct <= num_examples] behind the
    bounds on the two metrics. *)
Lemma evaluate_order (n : nat) (data : list EvalRecord) :
  (0 <= reciprocal_rank_sum invoke (take n data))%Q ∧
  (reciprocal_rank_sum invoke (take n data)
   <= Qnat (hit_count invoke (take n data)))%Q ∧
  (Qnat (hit_count invoke (take n data)) <= Qnat n)%Q.
Proof.
  destruct (reciprocal_rank_sum_bounds invoke (take n data)) as [H0 H1].
  split; [done|]. split; [done|].
  apply Qnat_le. etrans; [apply hit_count_le|]. rewrite length_take. lia.
Qed.
End RetrievalCell.

Section RetrievalClaims.
Import Retrieval Metrics Samples.

(** C1, as stated, fails on the cell, which reads the first
    [num_examples = 400] examples and divides by 400 whatever the number of
    examples: on the four examples of the claim (reference document at rank
    1, at rank 2, absent, absent) the sum of reciprocal ranks over the
    example count is 0.375 and the cell returns 3/800; on 401 examples of
    which only the last is a hit the sum over the count is 1/401 and the
    cell returns 0. *)
Lemma mrr_cell_divides_by_constant :
  (evaluate_cell toy_invoke toy_data = Ok (2 # 400, 3 # 800)%Q ∧
   (reciprocal_rank_sum toy_invoke toy_data / Qnat (length toy_data)
    == 3 # 8)%Q ∧
   ¬ (3 # 800 == 3 # 8)%Q) ∧
  (evaluate_cell toy_invoke long_data = Ok (0 # 400, 0 # 400)%Q ∧
   (reciprocal_rank_sum toy_invoke long_data / Qnat (length long_data)
    == 1 # 401)%Q ∧
   ¬ (0 # 400 == 1 # 401)%Q).
Proof.
  split; (split; [by vm_compute|]; split; by vm_compute).
Qed.

(** C1 (amended): for every example set holding at least [num_examples]
    examples ([num_examples] positive; the notebook binds it to 400), the
    evaluation returns as MRR the sum, over the first [num_examples]
    examples, of the reciprocal of the 1-based position of the example's
    [ref_doc_id] in the returned id list (0 when the id is absent), divided
    by [num_examples]; for a set of exactly [num_examples] examples this is
    the sum over all examples divided by the example count. *)
Theorem mrr_is_mean_reciprocal_rank
    (invoke : string → list Document) (n : nat) (data : list EvalRecord) :
  (0 < n ≤ length data)%nat →
  Forall (well_formed invoke) (take n data) →
  ∃ h m, evaluate invoke n data = Ok (h, m) ∧
    (m == reciprocal_rank_sum invoke (take n data) / Qnat n)%Q ∧
    (length data = n →
     (m == reciprocal_rank_sum invoke data / Qnat (length data))%Q).
Proof.
  intros [Hn _] Hwf.
  destruct (evaluate_total invoke n data Hn Hwf) as [[h m] Heval].
  exists h, m. split; [done|].
  apply evaluate_Ok in Heval as (_ & _ & Hm). split; [done|].
  intros Hlen. rewrite Hm, <- Hlen, firstn_all. reflexivity.
Qed.

(** The four examples of C1, evaluated with [num_examples = 4]: the MRR is
    0.375. *)
Lemma mrr_four_examples :
  (0 < 4 ≤ length toy_data)%nat ∧
  Forall (well_formed toy_invoke) (take 4 toy_data) ∧
  ∃ h m, evaluate toy_invoke 4 toy_data = Ok (h, m) ∧ (m == 3 # 8)%Q.
Proof.
  assert (0 < 4 ≤ length toy_data)%nat as Hn by (simpl; lia).
  assert (Forall (well_formed toy_invoke) (take 4 toy_data)) as Hwf
    by by_evaluation.
  split; [exact Hn|]. split; [exact Hwf|].
  destruct (mrr_is_mean_reciprocal_rank toy_invoke 4 toy_data Hn Hwf)
    as (h & m & Heval & _ & Hm).
  exists h, m. split; [exact Heval|].
  rewrite (Hm eq_refl). vm_compute. reflexivity.
Defined.

(** C4, as stated, fails on the cell, which reads the first
    [num_examples = 400] examples and divides by 400 whatever the number of
    examples: two of the four examples of [toy_data] are hits, the hit count
    over the example count is 0.5 and the cell returns 2/400; on 401
    examples of which only the last is a hit the hit count over the count is
    1/401 and the cell returns 0. *)
Lemma hit_rate_cell_divides_by_constant :
  (evaluate_cell toy_invoke toy_data = Ok (2 # 400, 3 # 800)%Q ∧
   (Qnat (hit_count toy_invoke toy_data) / Qnat (length toy_data)
    == 1 # 2)%Q ∧
   ¬ (2 # 400 == 1 # 2)%Q) ∧
  (evaluate_cell toy_invoke long_data = Ok (0 # 400, 0 # 400)%Q ∧
   (Qnat (hit_count toy_invoke long_data) / Qnat (length long_data)
    == 1 # 401)%Q ∧
   ¬ (0 # 400 == 1 # 401)%Q).
Proof.
  split; (split; [by vm_compute|]; split; by vm_compute).
Qed.

(** C4 (amended): for every example set holding at least [num_examples]
    examples ([num_examples] positive; the notebook binds it to 400), the
    evaluation returns as hit rate exactly the number of examples, among the
    first [num_examples], whose [ref_doc_id] appears anywhere in that
    example's returned id list, divided by [num_examples]; for a set of
    exactly [num_examples] examples this is the number of hits among all
    examples divided by the number of examples. *)
Theorem hit_rate_is_hit_fraction
    (invoke : string → list Document) (n : nat) (data : list EvalRecord) :
  (0 < n ≤ length data)%nat →
  Forall (well_formed invoke) (take n data) →
  ∃ h m, evaluate invoke n data = Ok (h, m) ∧
    (h == Qnat (hit_count invoke (take n data)) / Qnat n)%Q ∧
    (length data = n →
     (h == Qnat (hit_count invoke data) / Qnat (length data))%Q).
Proof.
  intros [Hn _] Hwf.
  destruct (evaluate_total invoke n data Hn Hwf) as [[h m] Heval].
  exists h, m. split; [done|].
  apply evaluate_Ok in Heval as (_ & Hh & _). split; [done|].
  intros Hlen. rewrite Hh, <- Hlen, firstn_all. reflexivity.
Qed.

(** The four examples again, evaluated with [num_examples = 4]: the hit rate
    is 0.5. *)
Lemma hit_rate_four_examples :
  (0 < 4 ≤ length toy_data)%nat ∧
  Forall (well_formed toy_invoke) (take 4 toy_data) ∧
  ∃ h m, evaluate toy_invoke 4 toy_data = Ok (h, m) ∧ (h == 1 # 2)%Q.
Proof.
  assert (0 < 4 ≤ length toy_data)%nat as Hn by (simpl; lia).
  assert (Forall (well_formed toy_invoke) (take 4 toy_data)) as Hwf
    by by_evaluation.
  split; [exact Hn|]. split; [exact Hwf|].
  destruct (hit_rate_is_hit_fraction toy_invoke 4 toy_data Hn Hwf)
    as (h & m & Heval & _ & Hh).
  exists h, m. split; [exact Heval|].
  rewrite (Hh eq_refl). vm_compute. reflexivity.
Defined.

(** One iteration on a returned id list that holds the [ref_doc_id] at index
    [i] and at no lower index: a hit is counted and [1 / (i + 1)] is added
    to the reciprocal-rank sum. *)
Lemma loop_body_first_occurrence
    (invoke : string → list Document) (correct : nat) (reciprocal_rank : Q)
    (eval_data : EvalRecord) (returned_doc_ids : list string) (i : nat) :
  doc_ids (invoke (question eval_data)) = Ok returned_doc_ids →
  returned_doc_ids !! i = Some (ref_doc_id eval_data) →
  (∀ j, (j < i)%nat → returned_doc_ids !! j ≠ Some (ref_doc_id eval_data)) →
  loop_body invoke (correct, reciprocal_rank) eval_data =
  Ok ((correct + 1)%nat, (reciprocal_rank + 1 / Qnat (i + 1))%Q).
Proof.
  intros Hids Hi Hfirst. unfold loop_body. rewrite Hids. simpl.
  unfold py_in. rewrite bool_decide_eq_true_2
    by (by eapply list_elem_of_lookup_2).
  rewrite (index_first _ _ i Hi Hfirst). simpl.
  rewrite truediv_Ok by (apply Qnat_nonzero; lia). reflexivity.
Qed.

Lemma doc_ids_well_formed (docs : list Document) (ids : list string) :
  doc_ids docs = Ok ids →
  Forall (λ doc, is_Some (metadata doc !! "unique_id")) docs.
Proof.
  revert ids. induction docs as [|doc docs IH]; intros ids; [constructor|].
  rewrite doc_ids_cons.
  intros (id & Hid%getitem_Ok & (ids' & Hids' & _)%bind_Ok)%bind_Ok.
  constructor; [by eexists | by eapply IH].
Qed.

(** The reciprocal rank the specification assigns to an example is fixed by
    the lowest index holding the id, and is 0 without one. *)
Lemma reciprocal_rank_at_first (ids : list string) (ref : string)
    (pos : option nat) :
  first_occurrence_at ids ref pos →
  reciprocal_rank ids ref = first_occurrence_term pos.
Proof.
  destruct pos as [i|]; simpl.
  - intros [Hi Hfirst].
    assert (ref ∈ ids) as Hin by (by eapply list_elem_of_lookup_2).
    destruct (reciprocal_rank_hit ids ref Hin) as (i' & Hi' & ->).
    rewrite (index_first _ _ i Hi Hfirst) in Hi'. by injection Hi' as <-.
  - apply reciprocal_rank_miss.
Qed.

(** C7: for every example set in which each example read has its
    [ref_doc_id] first at index [first example] of its returned id list
    (whatever follows that index, further occurrences of the id included),
    or nowhere, the evaluation returns as MRR the sum over the examples read
    of [1 / (first example + 1)], 0 for an absent id, divided by
    [num_examples]: the rank that counts is that of the first
    occurrence. *)
Theorem mrr_uses_first_occurrence
    (invoke : string → list Document) (n : nat) (data : list EvalRecord)
    (first : EvalRecord → option nat) :
  (0 < n)%nat →
  Forall (λ example, ∃ returned_doc_ids,
            doc_ids (invoke (question example)) = Ok returned_doc_ids ∧
            first_occurrence_at returned_doc_ids (ref_doc_id example)
                                (first example))
         (take n data) →
  ∃ hit_rate mrr, evaluate invoke n data = Ok (hit_rate, mrr) ∧
    (mrr == py_sum (map (λ example, first_occurrence_term (first example))
                        (take n data)) / Qnat n)%Q.
Proof.
  intros Hn Hfirst.
  assert (Forall (well_formed invoke) (take n data)) as Hwf.
  { eapply Forall_impl; [exact Hfirst|]. intros ex (ids & Hids & _).
    by eapply doc_ids_well_formed. }
  destruct (evaluate_total invoke n data Hn Hwf) as [[h m] Heval].
  exists h, m. split; [done|].
  apply evaluate_Ok in Heval as (_ & _ & ->).
  assert (reciprocal_rank_sum invoke (take n data) =
          py_sum (map (λ example, first_occurrence_term (first example))
                      (take n data))) as ->; [|reflexivity].
  unfold reciprocal_rank_sum. f_equal. clear Hwf.
  induction Hfirst as [|ex l (ids & Hids & Hpos) _ IH]; [done|].
  simpl. f_equal; [|exact IH].
  unfold example_reciprocal_rank, returned_ids.
  rewrite (doc_ids_Ok _ _ Hids). by apply reciprocal_rank_at_first.
Qed.

(** Three examples against a retriever that returns the ids b, a, a: the
    reference id a occurs at indices 1 and 2 and counts 1/2, the id b counts
    1 and the id z is absent, so the MRR is (1/2 + 1 + 0) / 3 = 1/2. *)
Lemma mrr_of_duplicated_reference :
  (0 < 3)%nat ∧
  Forall (λ example, ∃ returned_doc_ids,
            doc_ids (dup_invoke (question example)) = Ok returned_doc_ids ∧
            first_occurrence_at returned_doc_ids (ref_doc_id example)
                                (dup_first example))
         (take 3 dup_data) ∧
  ∃ hit_rate mrr, evaluate dup_invoke 3 dup_data = Ok (hit_rate, mrr) ∧
    (mrr == 1 # 2)%Q.
Proof.
  assert (0 < 3)%nat as Hn by lia.
  assert (Forall (λ example, ∃ returned_doc_ids,
            doc_ids (dup_invoke (question example)) = Ok returned_doc_ids ∧
            first_occurrence_at returned_doc_ids (ref_doc_id example)
                                (dup_first example))
            (take 3 dup_data)) as Hfirst.
  { repeat constructor; exists ["b"; "a"; "a"];
      (split; [vm_compute; reflexivity|]).
    - split; [reflexivity|]. intros j Hj. assert (j = 0%nat) as -> by lia.
      simpl. discriminate.
    - split; [reflexivity|]. intros j Hj. lia.
    - simpl. intros Hin. apply list_elem_of_In in Hin. simpl in Hin.
      destruct Hin as [Hz|[Hz|[Hz|[]]]]; discriminate Hz. }
  split; [exact Hn|]. split; [exact Hfirst|].
  destruct (mrr_uses_first_occurrence dup_invoke 3 dup_data dup_first
              Hn Hfirst) as (h & m & Heval & Hm).
  exists h, m. split; [exact Heval|].
  rewrite Hm. vm_compute. reflexivity.
Defined.

(** C8: the evaluation returns whenever [num_examples] is positive and the
    returned documents carry their ids, and whatever it returns, for every
    example set and every retriever, has both [hit_rate] and [mrr] in
    [[0, 1]]. *)
Theorem metrics_in_unit_interval
    (invoke : string → list Document) (n : nat) (data : list EvalRecord) :
  ((0 < n)%nat → Forall (well_formed invoke) (take n data) →
   is_Ok (evaluate invoke n data)) ∧
  (∀ hit_rate mrr, evaluate invoke n data = Ok (hit_rate, mrr) →
   (0 <= hit_rate <= 1)%Q ∧ (0 <= mrr <= 1)%Q).
Proof.
  split; [apply evaluate_total|].
  intros h m (Hn & Hh & Hm)%evaluate_Ok.
  destruct (evaluate_order invoke n data) as (H0 & H1 & H2).
  apply Qnat_pos in Hn. rewrite Hh, Hm.
  split; apply Qdiv_unit; try done.
  - apply Qnat_nonneg.
  - lra.
Qed.

Lemma metrics_in_unit_interval_cell :
  ∃ hit_rate mrr, evaluate_cell toy_invoke toy_data = Ok (hit_rate, mrr) ∧
    (0 <= hit_rate <= 1)%Q ∧ (0 <= mrr <= 1)%Q.
Proof.
  exists (2 # 400)%Q, (3 # 800)%Q.
  assert (evaluate_cell toy_invoke toy_data = Ok (2 # 400, 3 # 800)%Q)
    as Heval by (vm_compute; reflexivity).
  split; [exact Heval|].
  exact (proj2 (metrics_in_unit_interval toy_invoke num_examples toy_data)
           _ _ Heval).
Defined.

(** C10: whatever the evaluation returns, for every example set and every
    retriever, has [mrr <= hit_rate]; and it returns whenever [num_examples]
    is positive and the returned documents carry their ids. *)
Theorem mrr_le_hit_rate
    (invoke : string → list Document) (n : nat) (data : list EvalRecord) :
  ((0 < n)%nat → Forall (well_formed invoke) (take n data) →
   is_Ok (evaluate invoke n data)) ∧
  (∀ hit_rate mrr, evaluate invoke n data = Ok (hit_rate, mrr) →
   (mrr <= hit_rate)%Q).
Proof.
  split; [apply evaluate_total|].
  intros h m (Hn & Hh & Hm)%evaluate_Ok.
  destruct (evaluate_order invoke n data) as (_ & H1 & _).
  apply Qnat_pos in Hn. rewrite Hh, Hm. by apply Qdiv_le_compat.
Qed.

Lemma mrr_le_hit_rate_cell :
  ∃ hit_rate mrr, evaluate_cell toy_invoke toy_data = Ok (hit_rate, mrr) ∧
    (mrr <= hit_rate)%Q.
Proof.
  exists (2 # 400)%Q, (3 # 800)%Q.
  assert (evaluate_cell toy_invoke toy_data = Ok (2 # 400, 3 # 800)%Q)
    as Heval by (vm_compute; reflexivity).
  split; [exact Heval|].
  exact (proj2 (mrr_le_hit_rate toy_invoke num_examples toy_data) _ _ Heval).
Defined.
End RetrievalClaims.

(** ** Answer evaluation *)

Section Futures.
Context {A : Type}.

(** Taking [result()] from the futures in order succeeds only when every
    call succeeded. *)
Lemma collect_Ok (results : list (result A)) (rows : list A) :
  mapM (λ future, future) results = Ok rows → results = map Ok rows.
Proof.
  revert rows. induction results as [|future results IH]; intros rows.
  - by intros [= <-].
  - change (mapM _ (future :: results))
      with (row ← future; rest ← mapM (λ f, f) results; Ok (row :: rest)).
    intros (row & -> & (rest & Hrest & [= <-])%bind_Ok)%bind_Ok.
    simpl. f_equal. by apply IH.
Qed.

(** It re-raises the exception of the first failed call. *)
Lemma collect_first_failure (results : list (result A)) (j : nat)
    (e : exception) :
  results !! j = Some (Raise e) →
  (∀ i r, (i < j)%nat → results !! i = Some r → is_Ok r) →
  mapM (λ future, future) results = Raise e.
Proof.
  revert j. induction results as [|future results IH]; intros j Hj Hbefore.
  - done.
  - change (mapM _ (future :: results))
      with (row ← future; rest ← mapM (λ f, f) results; Ok (row :: rest)).
    destruct j as [|j].
    + injection Hj as ->. reflexivity.
    + destruct (Hbefore 0%nat future) as [row ->]; [lia | done |].
      simpl. rewrite (IH j); [done | done |].
      intros i r Hi Hr. apply (Hbefore (S i) r); [lia | done].
Qed.
End Futures.

Section GuardrailClaims.
Import Guardrail Samples.

(** C3, as stated, fails on the function: a throttled call is surfaced as
    the endpoint's own exception, the same value whether the failing triple
    is at index 0 or at index 1, so nothing in what is raised refers to the
    index. *)
Lemma scoring_failure_carries_no_index :
  submit toy_apply_guardrail "g" ("bad", ["c1"; "c2"], "a1")
  = Raise (ClientError "ThrottlingException") ∧
  is_Ok (submit toy_apply_guardrail "g" ("fine", ["c"], "a2")) ∧
  evaluate_rag_guardrail toy_apply_guardrail "g"
    ["bad"; "fine"] [["c1"; "c2"]; ["c"]] ["a1"; "a2"]
  = Raise (ClientError "ThrottlingException") ∧
  evaluate_rag_guardrail toy_apply_guardrail "g"
    ["fine"; "bad"] [["c"]; ["c1"; "c2"]] ["a2"; "a1"]
  = Raise (ClientError "ThrottlingException").
Proof.
  split; [by vm_compute|]. split; [by eexists; vm_compute|].
  split; by vm_compute.
Qed.

(** C3 (amended): for every batch and every scoring function that fails on
    the triple at index [j] and on no triple before it, the batch evaluation
    raises the exception of that failed call as it is, with no index attached,
    and so returns no mean; and it returns means only when every triple of
    the batch was scored. *)
Theorem scoring_failure_aborts_batch
    (apply_guardrail :
       string → string → string → list ContentBlock → result Response)
    (guardrail_id : string) (questions : list string)
    (contexts : list (list string)) (answers : list string) :
  (∀ j triple e,
     zip3 questions contexts answers !! j = Some triple →
     submit apply_guardrail guardrail_id triple = Raise e →
     (∀ i earlier, (i < j)%nat →
        zip3 questions contexts answers !! i = Some earlier →
        is_Ok (submit apply_guardrail guardrail_id earlier)) →
     evaluate_rag_guardrail apply_guardrail guardrail_id
       questions contexts answers = Raise e) ∧
  (∀ means,
     evaluate_rag_guardrail apply_guardrail guardrail_id
       questions contexts answers = Ok means →
     Forall (λ triple, is_Ok (submit apply_guardrail guardrail_id triple))
            (zip3 questions contexts answers)).
Proof.
  split.
  - intros j triple e Hj He Hbefore. unfold evaluate_rag_guardrail.
    rewrite (collect_first_failure _ j e); [done | |].
    + by rewrite list_lookup_fmap, Hj, <- He.
    + intros i r Hi. rewrite list_lookup_fmap.
      destruct (zip3 questions contexts answers !! i) as [earlier|] eqn:Hi';
        [|done].
      intros [= <-]. by eapply Hbefore.
  - intros means. unfold evaluate_rag_guardrail.
    intros (rows & Hrows%collect_Ok & _)%bind_Ok.
    apply Forall_forall. intros triple Hin%list_elem_of_In.
    apply (in_map (submit apply_guardrail guardrail_id)) in Hin.
    rewrite Hrows in Hin. apply in_map_iff in Hin as (row & <- & _).
    by eexists.
Qed.

(** A batch of three whose second call lacks the grounding metric and whose
    third is throttled: the [IndexError] of the second call is what is
    raised. *)
Lemma scoring_failure_first_in_order :
  zip3 ["fine"; "vague"; "bad"] [["c1"; "c2"]; ["c"]; []] ["a1"; "a2"; "a3"]
    !! 1%nat = Some ("vague", ["c"], "a2") ∧
  submit toy_apply_guardrail "g" ("vague", ["c"], "a2") = Raise IndexError ∧
  is_Ok (submit toy_apply_guardrail "g" ("fine", ["c1"; "c2"], "a1")) ∧
  evaluate_rag_guardrail toy_apply_guardrail "g"
    ["fine"; "vague"; "bad"] [["c1"; "c2"]; ["c"]; []] ["a1"; "a2"; "a3"]
  = Raise IndexError.
Proof.
  assert (submit toy_apply_guardrail "g" ("vague", ["c"], "a2")
          = Raise IndexError) as Hfail by (vm_compute; reflexivity).
  assert (is_Ok (submit toy_apply_guardrail "g" ("fine", ["c1"; "c2"], "a1")))
    as Hfine by (eexists; vm_compute; reflexivity).
  split; [reflexivity|]. split; [exact Hfail|]. split; [exact Hfine|].
  apply (proj1 (scoring_failure_aborts_batch toy_apply_guardrail "g"
                  ["fine"; "vague"; "bad"] [["c1"; "c2"]; ["c"]; []]
                  ["a1"; "a2"; "a3"])
           1%nat ("vague", ["c"], "a2") IndexError eq_refl Hfail).
  intros i earlier Hi. assert (i = 0%nat) as -> by lia.
  intros [= <-]. exact Hfine.
Defined.
End GuardrailClaims.

(** ** The persisted vector store *)

Section VectorStoreClaims.
Import VectorStore Samples.

(** C9: when the vector store file is absent, the index is built from the
    documents and its pickled serialisation is written to the file; when the
    file is present, its content is loaded and the files are left exactly as
    they were, so the existing file is not overwritten and nothing is built
    from the documents. *)
Theorem vector_store_check_before_create
    (VecDB : Type) (from_documents : list Document → VecDB)
    (serialize_to_bytes : VecDB → bytes)
    (deserialize_from_bytes : bytes → result VecDB)
    (pickle_dump : bytes → bytes) (pickle_load : bytes → result bytes)
    (documents : list Document) (fs : gmap string bytes) :
  (fs !! vector_store_file = None →
   cell9 VecDB from_documents serialize_to_bytes deserialize_from_bytes
     pickle_dump pickle_load documents fs =
   (<[vector_store_file :=
        pickle_dump (serialize_to_bytes (from_documents documents))]> fs,
    Ok (from_documents documents))) ∧
  (∀ content, fs !! vector_store_file = Some content →
   cell9 VecDB from_documents serialize_to_bytes deserialize_from_bytes
     pickle_dump pickle_load documents fs =
   (fs, vector_db_buff ← pickle_load content;
        deserialize_from_bytes vector_db_buff)).
Proof.
  unfold cell9, exists_, open_rb. split.
  - intros ->. rewrite bool_decide_eq_false_2 by (by intros [? ?]).
    reflexivity.
  - intros content ->. rewrite bool_decide_eq_true_2 by (by eexists).
    reflexivity.
Qed.

(** With no file, the store is built and written; with that file in place,
    it is read back and the files stay as they are. *)
Lemma vector_store_build_then_reuse :
  (∅ : gmap string bytes) !! vector_store_file = None ∧
  toy_cell9 [mk_doc "a"] ∅ =
  ({[ vector_store_file :=
        toy_pickle_dump (toy_from_documents [mk_doc "a"]) ]},
   Ok (toy_from_documents [mk_doc "a"])) ∧
  toy_cell9 [mk_doc "b"] (toy_cell9 [mk_doc "a"] ∅).1 =
  ((toy_cell9 [mk_doc "a"] ∅).1, Ok (toy_from_documents [mk_doc "a"])).
Proof.
  assert ((∅ : gmap string bytes) !! vector_store_file = None) as Habsent
    by apply lookup_empty.
  pose proof (proj1 (vector_store_check_before_create (list Byte.byte)
    toy_from_documents (λ b, b) Ok toy_pickle_dump toy_pickle_load
    [mk_doc "a"] ∅) Habsent) as Hbuild.
  fold toy_cell9 in Hbuild.
  split; [exact Habsent|]. split; [exact Hbuild|].
  rewrite Hbuild. simpl fst.
  pose proof (proj2 (vector_store_check_before_create (list Byte.byte)
    toy_from_documents (λ b, b) Ok toy_pickle_dump toy_pickle_load
    [mk_doc "b"] _) _ (lookup_insert_eq ∅ vector_store_file
      (toy_pickle_dump (toy_from_documents [mk_doc "a"])))) as Hreuse.
  fold toy_cell9 in Hreuse. rewrite Hreuse. reflexivity.
Defined.
End VectorStoreClaims.

(** * Further properties of the cells *)

Local Open Scope list_scope.

(** ** Loops *)

Lemma for_each_app {A S} (body : S → A → result S) (l1 l2 : list A) (s : S) :
  for_each body (l1 ++ l2) s = s' ← for_each body l1 s; for_each body l2 s'.
Proof.
  revert s. induction l1 as [|x l1 IH]; intros s; [done|].
  simpl. destruct (body s x) as [s'|e]; [apply IH | done].
Qed.

Lemma for_each_snoc_Ok {A S} (body : S → A → result S) (l : list A) (x : A)
    (s s'' : S) :
  for_each body (l ++ [x]) s = Ok s'' ↔
  ∃ s', for_each body l s = Ok s' ∧ body s' x = Ok s''.
Proof.
  rewrite for_each_app, bind_Ok. simpl.
  split; intros (s' & Hl & Hx); exists s'; split; try done.
  - by destruct (body s' x).
  - by rewrite Hx.
Qed.

Lemma for_each_ext {A S} (f g : S → A → result S) (l : list A) (s : S) :
  (∀ x s', x ∈ l → f s' x = g s' x) → for_each f l s = for_each g l s.
Proof.
  revert s. induction l as [|x l IH]; intros s Hfg; [done|].
  simpl. rewrite Hfg by apply list_elem_of_here.
  destruct (g s x) as [s'|e]; [|done]. simpl. apply IH.
  intros y s'' Hy. apply Hfg. by apply list_elem_of_further.
Qed.

(** ** Ingestion of the prepared data *)

Section IngestionFacts.
Import Ingestion EvaluationData.
Variable json_loads : string → result PreparedRecord.

Local Abbreviation parsed := (parsed_at json_loads).

Lemma parsed_at_snoc (lines : list string) (line : string) (j : nat)
    (r : PreparedRecord) :
  parsed (lines ++ [line]) j r ↔
  parsed lines j r ∨ (j = length lines ∧ json_loads line = Ok r).
Proof.
  unfold parsed_at. split.
  - intros (l & Hj & Hl). apply lookup_snoc_Some in Hj as [[Hlt Hj]|[-> ->]].
    + left. eauto.
    + right. done.
  - intros [(l & Hj & Hl)|[-> Hl]].
    + exists l. split; [|done]. by apply lookup_app_l_Some.
    + exists line. split; [|done]. apply list_lookup_middle. done.
Qed.

Lemma parsed_at_lt (lines : list string) (j : nat) (r : PreparedRecord) :
  parsed lines j r → (j < length lines)%nat.
Proof. intros (l & Hj & _). by eapply lookup_lt_Some. Qed.

Lemma ingest_body_Ok (ids ids' : list string) (docs docs' : list Document)
    (line : string) :
  ingest_body json_loads (ids, docs) line = Ok (ids', docs') ↔
  ∃ r, json_loads line = Ok r ∧
    (((ref_doc_id r ∉ ids) ∧ ids' = ids ++ [ref_doc_id r] ∧
      docs' = docs ++ [make_document r]) ∨
     (ref_doc_id r ∈ ids ∧ ids' = ids ∧ docs' = docs)).
Proof.
  unfold ingest_body. rewrite bind_Ok. unfold py_in.
  split; intros (r & Hr & H); exists r; (split; [done|]).
  - case_bool_decide; simpl in H; injection H as <- <-; eauto.
  - destruct H as [(Hn & -> & ->)|(Hin & -> & ->)].
    + by rewrite bool_decide_eq_false_2.
    + by rewrite bool_decide_eq_true_2.
Qed.

(** What the loop of cell 4 keeps true, from empty lists. *)
Lemma ingest_loop_inv (lines ids : list string) (docs : list Document) :
  for_each (ingest_body json_loads) lines ([], []) = Ok (ids, docs) →
  NoDup ids ∧ length docs = length ids ∧
  (∀ id, id ∈ ids ↔ ∃ j r, parsed lines j r ∧ ref_doc_id r = id) ∧
  (∀ i id doc, ids !! i = Some id → docs !! i = Some doc →
     ∃ j r, parsed lines j r ∧ ref_doc_id r = id ∧
       doc = make_document r ∧
       ∀ j' r', (j' < j)%nat → parsed lines j' r' → ref_doc_id r' ≠ id).
Proof.
  revert ids docs. induction lines as [|line lines IH] using rev_ind;
    intros ids' docs'.
  - intros [= <- <-]. split; [constructor|]. split; [done|]. split.
    + intros id. split; [by intros ?%elem_of_nil|].
      by intros (j & r & (l & Hj & _) & _).
    + by intros i id doc.
  - intros ([ids docs] & Hloop & Hbody)%for_each_snoc_Ok.
    apply IH in Hloop as (Hnodup & Hlen & Hmem & Hfirst). clear IH.
    apply ingest_body_Ok in Hbody as (r & Hr & Hcase).
    assert (∀ i id doc, ids !! i = Some id → docs !! i = Some doc →
      ∃ j r0, parsed (lines ++ [line]) j r0 ∧ ref_doc_id r0 = id ∧
        doc = make_document r0 ∧
        ∀ j' r', (j' < j)%nat → parsed (lines ++ [line]) j' r' →
                 ref_doc_id r' ≠ id) as Hfirst'.
    { intros i id doc Hi Hd.
      destruct (Hfirst i id doc Hi Hd) as (j & r0 & Hj & Hid & Hdoc & Hmin).
      exists j, r0. split; [apply parsed_at_snoc; by left|].
      split; [done|]. split; [done|].
      intros j' r' Hlt [Hj'|[-> _]]%parsed_at_snoc; [by eapply Hmin|].
      apply parsed_at_lt in Hj. lia. }
    destruct Hcase as [(Hnew & -> & ->)|(Hseen & -> & ->)].
    + split; [|split; [|split]].
      * apply NoDup_app. split; [done|]. split; [|apply NoDup_singleton].
        intros id Hid Heq%list_elem_of_singleton. by subst.
      * rewrite !length_app. simpl. lia.
      * intros id. rewrite elem_of_app, list_elem_of_singleton, Hmem.
        split.
        -- intros [(j & r0 & Hj & Hid) | ->].
           ++ exists j, r0. split; [apply parsed_at_snoc; by left | done].
           ++ exists (length lines), r. split; [|done].
              apply parsed_at_snoc. by right.
        -- intros (j & r0 & [Hj|[-> Hl]]%parsed_at_snoc & Hid).
           ++ left. eauto.
           ++ right. congruence.
      * intros i id doc Hi Hd.
        apply lookup_snoc_Some in Hi as [[Hlt Hi]|[Hi <-]].
        -- apply lookup_snoc_Some in Hd as [[_ Hd]|[Hd _]]; [|lia].
           by eapply Hfirst'.
        -- apply lookup_snoc_Some in Hd as [[Hd _]|[_ <-]]; [lia|].
           exists (length lines), r. split; [apply parsed_at_snoc; by right|].
           split; [done|]. split; [done|].
           intros j' r' Hlt [Hj'|[-> _]]%parsed_at_snoc Hid; [|lia].
           apply Hnew, Hmem. eauto.
    + split; [done|]. split; [done|]. split; [|done].
      intros id. rewrite Hmem. split.
      * intros (j & r0 & Hj & Hid). exists j, r0.
        split; [apply parsed_at_snoc; by left | done].
      * intros (j & r0 & [Hj|[-> Hl]]%parsed_at_snoc & Hid); [eauto|].
        apply Hmem. assert (r0 = r) as -> by congruence. by rewrite <- Hid.
Qed.

Lemma append_body_parsed (acc : list EvalRecord) (line : string)
    (r : PreparedRecord) :
  json_loads line = Ok r →
  append_body json_loads acc line = Ok (acc ++ [evaluation_entry r]).
Proof. intros Hr. unfold append_body. by rewrite Hr. Qed.

Lemma append_loop_Ok (lines : list string) (acc data : list EvalRecord) :
  for_each (append_body json_loads) lines acc = Ok data →
  ∃ rest, data = acc ++ rest ∧
    Forall2 (λ line entry, ∃ r, json_loads line = Ok r ∧
                                entry = evaluation_entry r) lines rest.
Proof.
  revert acc. induction lines as [|line lines IH]; intros acc.
  - intros [= <-]. exists []. split; [by rewrite app_nil_r | constructor].
  - simpl. intros (acc' & (r & Hr & [= <-])%bind_Ok & Hloop)%bind_Ok.
    apply IH in Hloop as (rest & -> & Hrest).
    exists (evaluation_entry r :: rest). split; [by rewrite <- app_assoc|].
    constructor; [eauto | done].
Qed.

End IngestionFacts.

Section IngestionProperties.
Import EvaluationData MoreSamples Samples.

(** Cell 4 keeps one document per distinct [ref_doc_id]: the ids it collects
    are pairwise distinct and [documents] is as long as [doc_ids]. *)
Theorem ingested_ids_distinct
    (json_loads : string → result Ingestion.PreparedRecord)
    (train_data test_data doc_ids : list string) (documents : list Document) :
  Ingestion.cell4 json_loads train_data test_data = Ok (doc_ids, documents) →
  NoDup doc_ids ∧ length documents = length doc_ids.
Proof.
  intros (Hnodup & Hlen & _)%ingest_loop_inv. done.
Qed.

Lemma ingested_ids_distinct_toy :
  Ingestion.cell4 toy_json_loads toy_train toy_test =
    Ok (["a"; "b"; "c"], [mk_doc "a"; mk_doc "b"; mk_doc "c"]) ∧
  NoDup ["a"; "b"; "c"] ∧
  length [mk_doc "a"; mk_doc "b"; mk_doc "c"] = length ["a"; "b"; "c"].
Proof.
  assert (Ingestion.cell4 toy_json_loads toy_train toy_test =
          Ok (["a"; "b"; "c"], [mk_doc "a"; mk_doc "b"; mk_doc "c"])) as Hrun
    by (vm_compute; reflexivity).
  split; [exact Hrun|].
  exact (ingested_ids_distinct toy_json_loads toy_train toy_test _ _ Hrun).
Defined.

(** The ids cell 4 collects are exactly the [ref_doc_id]s of the records of
    the training and test lines. *)
Theorem ingested_ids_cover_records
    (json_loads : string → result Ingestion.PreparedRecord)
    (train_data test_data doc_ids : list string) (documents : list Document) :
  Ingestion.cell4 json_loads train_data test_data = Ok (doc_ids, documents) →
  ∀ id, id ∈ doc_ids ↔
    ∃ j r, parsed_at json_loads (train_data ++ test_data) j r ∧
           Ingestion.ref_doc_id r = id.
Proof.
  intros (_ & _ & Hmem & _)%ingest_loop_inv. exact Hmem.
Qed.

Lemma ingested_ids_cover_records_toy :
  Ingestion.cell4 toy_json_loads toy_train toy_test =
    Ok (["a"; "b"; "c"], [mk_doc "a"; mk_doc "b"; mk_doc "c"]) ∧
  ("c" ∈ ["a"; "b"; "c"] ↔
   ∃ j r, parsed_at toy_json_loads (toy_train ++ toy_test) j r ∧
          Ingestion.ref_doc_id r = "c").
Proof.
  assert (Ingestion.cell4 toy_json_loads toy_train toy_test =
          Ok (["a"; "b"; "c"], [mk_doc "a"; mk_doc "b"; mk_doc "c"])) as Hrun
    by (vm_compute; reflexivity).
  split; [exact Hrun|].
  exact (ingested_ids_cover_records toy_json_loads toy_train toy_test _ _
           Hrun "c").
Defined.

(** The document cell 4 keeps for an id is the one made from the first
    record carrying that id; later records with the same id add nothing. *)
Theorem ingested_document_is_first_record
    (json_loads : string → result Ingestion.PreparedRecord)
    (train_data test_data doc_ids : list string) (documents : list Document)
    (i : nat) (id : string) (doc : Document) :
  Ingestion.cell4 json_loads train_data test_data = Ok (doc_ids, documents) →
  doc_ids !! i = Some id →
  documents !! i = Some doc →
  ∃ j r, parsed_at json_loads (train_data ++ test_data) j r ∧
    Ingestion.ref_doc_id r = id ∧ doc = Ingestion.make_document r ∧
    ∀ j' r', (j' < j)%nat →
      parsed_at json_loads (train_data ++ test_data) j' r' →
      Ingestion.ref_doc_id r' ≠ id.
Proof.
  intros (_ & _ & _ & Hfirst)%ingest_loop_inv. apply Hfirst.
Qed.

Lemma ingested_document_is_first_record_toy :
  Ingestion.cell4 toy_json_loads toy_train toy_test =
    Ok (["a"; "b"; "c"], [mk_doc "a"; mk_doc "b"; mk_doc "c"]) ∧
  ∃ j r, parsed_at toy_json_loads (toy_train ++ toy_test) j r ∧
    Ingestion.ref_doc_id r = "b" ∧ mk_doc "b" = Ingestion.make_document r ∧
    ∀ j' r', (j' < j)%nat →
      parsed_at toy_json_loads (toy_train ++ toy_test) j' r' →
      Ingestion.ref_doc_id r' ≠ "b".
Proof.
  assert (Ingestion.cell4 toy_json_loads toy_train toy_test =
          Ok (["a"; "b"; "c"], [mk_doc "a"; mk_doc "b"; mk_doc "c"])) as Hrun
    by (vm_compute; reflexivity).
  split; [exact Hrun|].
  exact (ingested_document_is_first_record toy_json_loads toy_train toy_test
           _ _ 1 "b" (mk_doc "b") Hrun eq_refl eq_refl).
Defined.

(** When cells 4 and 11 have both returned, [retriever_evaluation_data]
    holds one entry per test line, in order, carrying that line's
    [ref_doc_id] and [question], and every [ref_doc_id] in it is among the
    ids cell 4 collected. *)
Theorem evaluation_refs_are_ingested
    (json_loads : string → result Ingestion.PreparedRecord)
    (train_data test_data doc_ids : list string) (documents : list Document)
    (retriever_evaluation_data : list EvalRecord) :
  Ingestion.cell4 json_loads train_data test_data = Ok (doc_ids, documents) →
  cell11 json_loads test_data = Ok retriever_evaluation_data →
  Forall2 (λ line entry, ∃ r, json_loads line = Ok r ∧
                              entry = evaluation_entry r)
          test_data retriever_evaluation_data ∧
  Forall (λ entry, ref_doc_id entry ∈ doc_ids) retriever_evaluation_data.
Proof.
  intros Hrun Hdata.
  apply append_loop_Ok in Hdata as (rest & -> & Hrest). simpl.
  split; [exact Hrest|].
  apply ingest_loop_inv in Hrun as (_ & _ & Hmem & _).
  apply Forall_forall. intros entry Hentry.
  apply list_elem_of_lookup in Hentry as [j Hj].
  destruct (Forall2_lookup_r _ _ _ _ _ Hrest Hj) as (line & Hline & r & Hr & ->).
  simpl. apply Hmem. exists (length train_data + j)%nat, r. split; [|done].
  exists line. split; [|done].
  by rewrite lookup_app_r, Nat.add_comm, Nat.add_sub by lia.
Qed.

Lemma evaluation_refs_are_ingested_toy :
  Ingestion.cell4 toy_json_loads toy_train toy_test =
    Ok (["a"; "b"; "c"], [mk_doc "a"; mk_doc "b"; mk_doc "c"]) ∧
  cell11 toy_json_loads toy_test =
    Ok [ {| ref_doc_id := "b"; question := "q4" |};
         {| ref_doc_id := "c"; question := "q5" |} ] ∧
  Forall (λ entry, ref_doc_id entry ∈ ["a"; "b"; "c"])
         [ {| ref_doc_id := "b"; question := "q4" |};
           {| ref_doc_id := "c"; question := "q5" |} ].
Proof.
  assert (Ingestion.cell4 toy_json_loads toy_train toy_test =
          Ok (["a"; "b"; "c"], [mk_doc "a"; mk_doc "b"; mk_doc "c"])) as Hrun
    by (vm_compute; reflexivity).
  assert (cell11 toy_json_loads toy_test =
          Ok [ {| ref_doc_id := "b"; question := "q4" |};
               {| ref_doc_id := "c"; question := "q5" |} ]) as Hdata
    by (vm_compute; reflexivity).
  split; [exact Hrun|]. split; [exact Hdata|].
  exact (proj2 (evaluation_refs_are_ingested toy_json_loads toy_train
                  toy_test _ _ _ Hrun Hdata)).
Defined.
End IngestionProperties.

(** ** Retriever evaluation: exceptions, inputs read, relations between the
    metrics *)

Section RetrievalFacts.
Variable invoke : string → list Document.

Import Retrieval Metrics.

(** The id list is built unless a document lacks the key, and then the
    [KeyError] of that lookup is what is raised. *)
Lemma doc_ids_cases (docs : list Document) :
  (Forall (λ doc, is_Some (metadata doc !! "unique_id")) docs ∧
   is_Ok (doc_ids docs)) ∨
  (¬ Forall (λ doc, is_Some (metadata doc !! "unique_id")) docs ∧
   doc_ids docs = Raise (KeyError "unique_id")).
Proof.
  induction docs as [|doc docs IH]; [left; split; [constructor | by eexists]|].
  rewrite doc_ids_cons. unfold getitem.
  destruct (metadata doc !! "unique_id") as [id|] eqn:Hid; simpl.
  - destruct IH as [[Hwf [ids ->]]|[Hwf ->]]; simpl.
    + left. split; [constructor; [by eexists | done] | by eexists].
    + right. split; [|done]. by intros [_ ?]%Forall_cons.
  - right. split; [|done]. intros [[? Habs] _]%Forall_cons.
    rewrite Hid in Habs. discriminate.
Qed.

Lemma loop_body_cases (st : nat * Q) (example : EvalRecord) :
  (well_formed invoke example ∧ is_Ok (loop_body invoke st example)) ∨
  (¬ well_formed invoke example ∧
   loop_body invoke st example = Raise (KeyError "unique_id")).
Proof.
  destruct (doc_ids_cases (invoke (question example))) as [[Hwf _]|[Hwf Hids]].
  - left. split; [done|]. by apply loop_body_total.
  - right. split; [done|]. destruct st as [c rr]. unfold loop_body.
    by rewrite Hids.
Qed.

Lemma loop_cases (examples : list EvalRecord) (st : nat * Q) :
  (Forall (well_formed invoke) examples ∧
   is_Ok (for_each (loop_body invoke) examples st)) ∨
  (¬ Forall (well_formed invoke) examples ∧
   for_each (loop_body invoke) examples st = Raise (KeyError "unique_id")).
Proof.
  revert st. induction examples as [|ex examples IH]; intros st.
  - left. split; [constructor | by eexists].
  - simpl. destruct (loop_body_cases st ex) as [[Hwf [st' ->]]|[Hwf ->]]; simpl.
    + destruct (IH st') as [[Hall Hok]|[Hall Hraise]].
      * left. split; [by constructor | done].
      * right. split; [|done]. by intros [_ ?]%Forall_cons.
    + right. split; [|done]. by intros [? _]%Forall_cons.
Qed.

Lemma loop_body_ext (invoke' : string → list Document) (st : nat * Q)
    (example : EvalRecord) :
  invoke (question example) = invoke' (question example) →
  loop_body invoke st example = loop_body invoke' st example.
Proof.
  intros Hq. destruct st as [c rr]. unfold loop_body. by rewrite Hq.
Qed.

(** The reciprocal rank of a hit is 1 only at rank 1. *)
Lemma reciprocal_rank_one (ids : list string) (ref : string) :
  ref ∈ ids →
  ((reciprocal_rank ids ref == 1)%Q ↔ rank ids ref = Some 1%nat).
Proof.
  intros Hin. unfold reciprocal_rank.
  destruct (rank ids ref) as [r|] eqn:Hrank.
  - split.
    + intros Hone. f_equal.
      assert (r ≠ 0%nat) as Hr.
      { unfold rank in Hrank. destruct (list_find _ ids) as [[i x]|];
          simpl in Hrank; [|done]. injection Hrank as <-. lia. }
      assert (Qnat r == 1)%Q as Heq.
      { transitivity (Qnat r * (1 / Qnat r))%Q.
        - rewrite Hone. ring.
        - field. apply Qnat_nonzero. lia. }
      unfold Qnat, Qeq in Heq. simpl in Heq. lia.
    + intros [= ->]. reflexivity.
  - pose proof (index_find ids ref) as Hfind. unfold rank in Hrank.
    destruct (list_find _ ids) as [[i x]|]; [done|]. by destruct Hfind.
Qed.

Lemma reciprocal_rank_pos (ids : list string) (ref : string) :
  ref ∈ ids → (0 < reciprocal_rank ids ref)%Q.
Proof.
  intros Hin. destruct (reciprocal_rank_hit ids ref Hin) as (i & _ & ->).
  apply Qlt_shift_div_l; [apply Qnat_pos; lia | lra].
Qed.

Lemma reciprocal_rank_sum_zero (examples : list EvalRecord) :
  (reciprocal_rank_sum invoke examples == 0)%Q ↔
  hit_count invoke examples = 0%nat.
Proof.
  unfold hit_count, reciprocal_rank_sum.
  induction examples as [|ex examples IH]; simpl; [done|].
  destruct (reciprocal_rank_sum_bounds invoke examples) as [Hsum _].
  unfold reciprocal_rank_sum in Hsum.
  destruct (is_hit invoke ex) eqn:Hhit.
  - rewrite filter_cons_True by done. simpl.
    apply bool_decide_eq_true_1, reciprocal_rank_pos in Hhit.
    fold (example_reciprocal_rank invoke ex) in Hhit.
    split; [intros ?; lra | done].
  - rewrite filter_cons_False by congruence. rewrite <- IH.
    apply bool_decide_eq_false_1 in Hhit. unfold example_reciprocal_rank at 1.
    rewrite (reciprocal_rank_miss _ _ Hhit). split; intros ?; lra.
Qed.

Lemma reciprocal_rank_sum_full (examples : list EvalRecord) :
  (reciprocal_rank_sum invoke examples
   == Qnat (hit_count invoke examples))%Q ↔
  Forall (λ ex, is_hit invoke ex = true →
                rank (returned_ids invoke ex) (ref_doc_id ex) = Some 1%nat)
         examples.
Proof.
  induction examples as [|ex examples IH].
  - split; [constructor | reflexivity].
  - rewrite Forall_cons, <- IH. clear IH.
    destruct (reciprocal_rank_sum_bounds invoke examples) as [_ Hsum].
    pose proof (reciprocal_rank_bounds (returned_ids invoke ex)
                  (ref_doc_id ex)) as [_ Hterm].
    fold (is_hit invoke ex) in Hterm.
    unfold hit_count, reciprocal_rank_sum in *. simpl.
    fold (example_reciprocal_rank invoke ex) in Hterm.
    destruct (is_hit invoke ex) eqn:Hhit.
    + rewrite filter_cons_True by done. simpl length.
      change (S ?n) with (1 + n)%nat. rewrite Qnat_add.
      change (Qnat 1) with 1%Q.
      pose proof Hhit as Hin. apply bool_decide_eq_true_1 in Hin.
      pose proof (reciprocal_rank_one _ _ Hin) as Hone.
      fold (example_reciprocal_rank invoke ex) in Hone.
      split.
      * intros Heq. split; [intros _; apply Hone; lra | lra].
      * intros [Hrank Hrest]. apply Hone in Hrank; [lra | done].
    + rewrite filter_cons_False by congruence.
      apply bool_decide_eq_false_1 in Hhit.
      unfold example_reciprocal_rank in *.
      rewrite (reciprocal_rank_miss _ _ Hhit) in *.
      split; [intros Heq; split; [done | lra] | intros [_ Hrest]; lra].
Qed.

Lemma Qdiv_cancel (a b c : Q) :
  ¬ (c == 0)%Q → ((a / c == b / c)%Q ↔ (a == b)%Q).
Proof.
  intros Hc. split; intros Heq; [|by rewrite Heq].
  assert (a == a / c * c)%Q as -> by (by field).
  rewrite Heq. by field.
Qed.
End RetrievalFacts.

Section FallibleRetrievalFacts.
Variable invoke : string → result (list Document).

Import FallibleRetrieval.

(** On a retriever that never raises, this is the evaluation of
    [Retrieval]. *)
Lemma fallible_evaluate_total_retriever (invoke' : string → list Document)
    (n : nat) (data : list EvalRecord) :
  evaluate (λ q, Ok (invoke' q)) n data = Retrieval.evaluate invoke' n data.
Proof.
  unfold evaluate, Retrieval.evaluate.
  rewrite (for_each_ext (loop_body (λ q, Ok (invoke' q)))
             (Retrieval.loop_body invoke')); [done|].
  by intros ex [c rr] _.
Qed.

Lemma fallible_loop_body_cases (st : nat * Q) (example : EvalRecord) :
  (retrieves invoke example ∧ is_Ok (loop_body invoke st example)) ∨
  (∃ e, loop_body invoke st example = Raise e ∧
     ¬ retrieves invoke example ∧
     (invoke (question example) = Raise e ∨
      (e = KeyError "unique_id" ∧
       ∃ returned_docs, invoke (question example) = Ok returned_docs ∧
         ¬ Forall (λ doc, is_Some (metadata doc !! "unique_id"))
                  returned_docs))).
Proof.
  destruct st as [c rr]. unfold loop_body, retrieves.
  destruct (invoke (question example)) as [docs|e] eqn:Hdocs; simpl.
  - pose proof (loop_body_cases (λ _, docs) (c, rr) example) as Hcases.
    unfold Metrics.well_formed, Retrieval.loop_body in Hcases.
    destruct Hcases as [[Hwf Hok]|[Hwf Hraise]].
    + left. split; [by exists docs | done].
    + right. exists (KeyError "unique_id"). split; [done|]. split.
      * by intros (docs' & [= <-] & ?).
      * right. split; [done|]. by exists docs.
  - right. exists e. split; [done|]. split; [|by left].
    by intros (docs' & [=] & _).
Qed.

Lemma fallible_loop_cases (examples : list EvalRecord) (st : nat * Q) :
  (Forall (retrieves invoke) examples ∧
   is_Ok (for_each (loop_body invoke) examples st)) ∨
  (∃ e, for_each (loop_body invoke) examples st = Raise e ∧
     ¬ Forall (retrieves invoke) examples ∧
     ((∃ example, example ∈ examples ∧
         invoke (question example) = Raise e) ∨
      (e = KeyError "unique_id" ∧
       ∃ example returned_docs, example ∈ examples ∧
         invoke (question example) = Ok returned_docs ∧
         ¬ Forall (λ doc, is_Some (metadata doc !! "unique_id"))
                  returned_docs))).
Proof.
  revert st. induction examples as [|ex examples IH]; intros st.
  - left. split; [constructor | by eexists].
  - simpl. destruct (fallible_loop_body_cases st ex)
      as [[Hex [st' ->]]|(e & -> & Hex & Hwhy)]; simpl.
    + destruct (IH st') as [[Hall Hok]|(e & Hraise & Hnot & Hwhy)].
      * left. split; [by constructor | done].
      * right. exists e. split; [done|]. split.
        -- by intros [_ ?]%Forall_cons.
        -- destruct Hwhy as [(ex' & Hin & Hr)|(-> & ex' & docs & Hin & Hr)].
           ++ left. exists ex'. split; [by apply list_elem_of_further | done].
           ++ right. split; [done|]. exists ex', docs.
              split; [by apply list_elem_of_further | done].
    + right. exists e. split; [done|]. split.
      * by intros [? _]%Forall_cons.
      * destruct Hwhy as [Hr|(-> & docs & Hr)].
        -- left. exists ex. split; [apply list_elem_of_here | done].
        -- right. split; [done|]. exists ex, docs.
           split; [apply list_elem_of_here | done].
Qed.
End FallibleRetrievalFacts.

Section RetrievalProperties.
Import Retrieval Metrics Samples MoreSamples.

(** With a retriever call that may raise, the evaluation returns exactly
    when [num_examples] is positive and, for each of the first
    [num_examples] examples, the retriever returns and every returned
    document carries ["unique_id"]. When it raises, the exception is one the
    retriever raised on one of those questions, or the [KeyError] of
    ["unique_id"] for a returned document lacking the key, or
    [ZeroDivisionError] with [num_examples] 0: the [ValueError] of
    [list.index] and the division of the reciprocal rank add no case of
    their own. *)
Theorem evaluate_outcomes
    (invoke : string → result (list Document)) (n : nat)
    (data : list EvalRecord) :
  (is_Ok (FallibleRetrieval.evaluate invoke n data) ↔
   (0 < n)%nat ∧
   Forall (FallibleRetrieval.retrieves invoke) (take n data)) ∧
  (∀ e, FallibleRetrieval.evaluate invoke n data = Raise e →
     (∃ example, example ∈ take n data ∧
        invoke (question example) = Raise e) ∨
     (e = KeyError "unique_id" ∧
      ∃ example returned_docs, example ∈ take n data ∧
        invoke (question example) = Ok returned_docs ∧
        ¬ Forall (λ doc, is_Some (metadata doc !! "unique_id"))
                 returned_docs) ∨
     (e = ZeroDivisionError ∧ n = 0%nat)).
Proof.
  unfold FallibleRetrieval.evaluate.
  destruct (fallible_loop_cases invoke (take n data) (0%nat, 0%Q))
    as [[Hall [[c rr] ->]]|(e' & -> & Hnot & Hwhy)]; simpl.
  - destruct n as [|n].
    + split.
      * split; [by intros [? ?] | intros [? _]; lia].
      * intros e [= <-]. right. right. done.
    + rewrite !truediv_Ok by (apply Qnat_nonzero; lia). simpl. split.
      * split; [intros _; split; [lia | done] | by eexists].
      * by intros e.
  - split.
    + split; [by intros [? ?] | by intros [_ ?]].
    + intros e [= <-]. destruct Hwhy as [?|?]; [by left | right; by left].
Qed.

Lemma evaluate_outcomes_toy :
  FallibleRetrieval.evaluate throttled_invoke 4 toy_data
  = Raise (ClientError "ThrottlingException") ∧
  ((∃ example, example ∈ take 4 toy_data ∧
      throttled_invoke (question example)
      = Raise (ClientError "ThrottlingException")) ∨
   (ClientError "ThrottlingException" = KeyError "unique_id" ∧
    ∃ example returned_docs, example ∈ take 4 toy_data ∧
      throttled_invoke (question example) = Ok returned_docs ∧
      ¬ Forall (λ doc, is_Some (metadata doc !! "unique_id"))
               returned_docs) ∨
   (ClientError "ThrottlingException" = ZeroDivisionError ∧ 4%nat = 0%nat)).
Proof.
  assert (FallibleRetrieval.evaluate throttled_invoke 4 toy_data
          = Raise (ClientError "ThrottlingException")) as Hrun
    by (vm_compute; reflexivity).
  split; [exact Hrun|].
  exact (proj2 (evaluate_outcomes throttled_invoke 4 toy_data) _ Hrun).
Defined.

(** The evaluation consults the retriever only on the questions of the first
    [num_examples] examples: examples past them, and what the retriever
    would answer to any other question, do not change the result. *)
Theorem evaluate_reads_only_prefix
    (invoke invoke' : string → list Document) (n : nat)
    (data data' : list EvalRecord) :
  take n data = take n data' →
  (∀ example, example ∈ take n data →
     invoke (question example) = invoke' (question example)) →
  evaluate invoke n data = evaluate invoke' n data'.
Proof.
  intros Hprefix Hsame. unfold evaluate. rewrite <- Hprefix.
  rewrite (for_each_ext (loop_body invoke) (loop_body invoke')); [done|].
  intros ex st Hex. apply loop_body_ext. by apply Hsame.
Qed.

Lemma evaluate_reads_only_prefix_toy :
  take 4 toy_data = take 4 (toy_data ++ long_data) ∧
  evaluate toy_invoke 4 toy_data =
  evaluate anonymous_invoke_late 4 (toy_data ++ long_data).
Proof.
  assert (take 4 toy_data = take 4 (toy_data ++ long_data)) as Hprefix
    by reflexivity.
  split; [exact Hprefix|].
  apply (evaluate_reads_only_prefix toy_invoke anonymous_invoke_late 4
           toy_data (toy_data ++ long_data) Hprefix).
  intros example Hin. apply list_elem_of_In in Hin. simpl in Hin.
  destruct Hin as [<-|[<-|[<-|[<-|[]]]]]; reflexivity.
Defined.

(** The MRR is 0 exactly when the hit rate is 0, that is when none of the
    examples read is a hit. *)
Theorem mrr_zero_iff_no_hit
    (invoke : string → list Document) (n : nat) (data : list EvalRecord)
    (hit_rate mrr : Q) :
  evaluate invoke n data = Ok (hit_rate, mrr) →
  ((mrr == 0)%Q ↔ (hit_rate == 0)%Q) ∧
  ((hit_rate == 0)%Q ↔ hit_count invoke (take n data) = 0%nat).
Proof.
  intros (Hn & -> & ->)%evaluate_Ok.
  pose proof (Qnat_nonzero n Hn) as Hnz.
  assert (∀ a, (a / Qnat n == 0)%Q ↔ (a == 0)%Q) as Hzero.
  { intros a. split; intros Ha.
    - assert (a == a / Qnat n * Qnat n)%Q as -> by (by field).
      rewrite Ha. ring.
    - rewrite Ha. by field. }
  rewrite !Hzero, reciprocal_rank_sum_zero.
  assert ((Qnat (hit_count invoke (take n data)) == 0)%Q ↔
          hit_count invoke (take n data) = 0%nat) as Hcount.
  { split; intros Hc.
    - unfold Qnat, Qeq in Hc. simpl in Hc. lia.
    - by rewrite Hc. }
  split; [symmetry|]; exact Hcount.
Qed.

Lemma mrr_zero_iff_no_hit_toy :
  evaluate toy_invoke 400 long_data = Ok (0 # 400, 0 # 400)%Q ∧
  (((0 # 400) == 0)%Q ↔ ((0 # 400) == 0)%Q) ∧
  (((0 # 400) == 0)%Q ↔ hit_count toy_invoke (take 400 long_data) = 0%nat).
Proof.
  assert (evaluate toy_invoke 400 long_data = Ok (0 # 400, 0 # 400)%Q)
    as Hrun by (vm_compute; reflexivity).
  split; [exact Hrun|].
  exact (mrr_zero_iff_no_hit toy_invoke 400 long_data _ _ Hrun).
Defined.

(** The MRR equals the hit rate exactly when every hit among the examples
    read has its reference document at rank 1. *)
Theorem mrr_eq_hit_rate_iff_rank_one
    (invoke : string → list Document) (n : nat) (data : list EvalRecord)
    (hit_rate mrr : Q) :
  evaluate invoke n data = Ok (hit_rate, mrr) →
  ((mrr == hit_rate)%Q ↔
   Forall (λ example, is_hit invoke example = true →
             rank (returned_ids invoke example) (ref_doc_id example)
             = Some 1%nat)
          (take n data)).
Proof.
  intros (Hn & -> & ->)%evaluate_Ok.
  rewrite (Qdiv_cancel _ _ _ (Qnat_nonzero n Hn)).
  apply reciprocal_rank_sum_full.
Qed.

Lemma mrr_eq_hit_rate_iff_rank_one_toy :
  evaluate toy_invoke 1 toy_data = Ok (1 # 1, 1 # 1)%Q ∧
  (((1 # 1) == (1 # 1))%Q ↔
   Forall (λ example, is_hit toy_invoke example = true →
             rank (returned_ids toy_invoke example) (ref_doc_id example)
             = Some 1%nat)
          (take 1 toy_data)).
Proof.
  assert (evaluate toy_invoke 1 toy_data = Ok (1 # 1, 1 # 1)%Q) as Hrun
    by (vm_compute; reflexivity).
  split; [exact Hrun|].
  exact (mrr_eq_hit_rate_iff_rank_one toy_invoke 1 toy_data _ _ Hrun).
Defined.
End RetrievalProperties.

(** ** Answer evaluation: responses, batches, means *)

Section GuardrailFacts.
Import Guardrail.
Variable apply_guardrail :
  string → string → string → list ContentBlock → result Response.

(** The first metric of a type is the one read. *)
Lemma first_metric (t : string) (before after : list Metric) (metric : Metric) :
  Forall (λ m, type m ≠ t) before →
  type metric = t →
  list_getitem (filter (has_type t) (before ++ metric :: after)) 0 = Ok metric.
Proof.
  intros Hbefore Ht. induction Hbefore as [|m before Hm _ IH]; simpl.
  - rewrite filter_cons_True; [reflexivity|]. unfold has_type.
    by apply bool_decide_pack.
  - rewrite filter_cons_False; [exact IH|]. unfold has_type.
    by intros ?%bool_decide_unpack.
Qed.

Lemma no_metric (t : string) (metrics : list Metric) :
  Forall (λ m, type m ≠ t) metrics →
  list_getitem (filter (has_type t) metrics) 0 = Raise IndexError.
Proof.
  induction 1 as [|m metrics Hm _ IH]; [reflexivity|].
  rewrite filter_cons_False; [exact IH|]. unfold has_type.
  by intros ?%bool_decide_unpack.
Qed.

Lemma metric_cases (t : string) (metrics : list Metric) :
  is_Ok (list_getitem (filter (has_type t) metrics) 0) ∨
  list_getitem (filter (has_type t) metrics) 0 = Raise IndexError.
Proof.
  unfold list_getitem. destruct (filter _ metrics !! 0%nat);
    [left; by eexists | by right].
Qed.

(** What a successful batch returns: the means over the rows of all the
    triples, of which there is at least one. *)
Lemma evaluate_rag_guardrail_Ok (guardrail_id : string)
    (questions : list string) (contexts : list (list string))
    (answers : list string) (g r : Q) :
  evaluate_rag_guardrail apply_guardrail guardrail_id questions contexts
    answers = Ok (g, r) →
  ∃ rows,
    map (submit apply_guardrail guardrail_id)
        (zip3 questions contexts answers) = map Ok rows ∧
    rows ≠ [] ∧
    g = (py_sum (map grounding_score rows) / Qnat (length rows))%Q ∧
    r = (py_sum (map relevance_score rows) / Qnat (length rows))%Q.
Proof.
  unfold evaluate_rag_guardrail.
  intros (rows & Hrows%collect_Ok &
          (g' & Hg & (r' & Hr & [= <- <-])%bind_Ok)%bind_Ok)%bind_Ok.
  exists rows. rewrite !length_map in Hg, Hr.
  apply truediv_inv in Hg as [Hn ->]. apply truediv_inv in Hr as [_ ->].
  split; [done|]. split; [|done]. intros ->. by apply Hn.
Qed.

Lemma zip3_nil {A B C} (l1 : list A) (l2 : list B) (l3 : list C) :
  l1 = [] ∨ l2 = [] ∨ l3 = [] → zip3 l1 l2 l3 = [].
Proof.
  intros [-> | [-> | ->]]; [done | by destruct l1 | by destruct l1, l2].
Qed.

Lemma zip3_length {A B C} (l1 : list A) (l2 : list B) (l3 : list C) :
  length (zip3 l1 l2 l3) = length l1 `min` (length l2 `min` length l3).
Proof.
  revert l2 l3. induction l1 as [|a l1 IH]; intros l2 l3; [done|].
  destruct l2 as [|b l2]; [done|]. destruct l3 as [|c l3]; [simpl; lia|].
  simpl. by rewrite IH.
Qed.

Lemma zip3_lookup {A B C} (l1 : list A) (l2 : list B) (l3 : list C)
    (i : nat) (a : A) (b : B) (c : C) :
  zip3 l1 l2 l3 !! i = Some (a, b, c) ↔
  l1 !! i = Some a ∧ l2 !! i = Some b ∧ l3 !! i = Some c.
Proof.
  revert l2 l3 i. induction l1 as [|a' l1 IH]; intros l2 l3 i.
  - split; [done | by intros [? _]].
  - destruct l2 as [|b' l2]; [split; [done | by intros (_ & ? & _)]|].
    destruct l3 as [|c' l3]; [split; [done | by intros (_ & _ & ?)]|].
    destruct i as [|i]; simpl.
    + split; [by intros [= -> -> ->] | by intros ([= ->] & [= ->] & [= ->])].
    + apply IH.
Qed.

(** Taking [result()] from futures that all hold a value succeeds. *)
Lemma collect_total {A} (results : list (result A)) :
  Forall is_Ok results → is_Ok (mapM (λ future, future) results).
Proof.
  induction 1 as [|future results [row ->] _ [rows IH]]; [by eexists|].
  exists (row :: rows).
  change (mapM _ (Ok row :: results))
    with (row' ← Ok row; rest ← mapM (λ f, f) results; Ok (row' :: rest)).
  simpl. by rewrite IH.
Qed.

Lemma py_sum_bounds (l : list Q) (lo hi : Q) :
  Forall (λ x, (lo <= x <= hi)%Q) l →
  (Qnat (length l) * lo <= py_sum l <= Qnat (length l) * hi)%Q.
Proof.
  induction 1 as [|x l [Hlo Hhi] _ [IHlo IHhi]]; simpl.
  - change (Qnat 0) with 0%Q. split; lra.
  - change (S ?n) with (1 + n)%nat. rewrite Qnat_add.
    change (Qnat 1) with 1%Q. split; lra.
Qed.

Lemma mean_bounds (l : list Q) (lo hi : Q) :
  l ≠ [] →
  Forall (λ x, (lo <= x <= hi)%Q) l →
  (lo <= py_sum l / Qnat (length l) <= hi)%Q.
Proof.
  intros Hne [Hlo Hhi]%py_sum_bounds.
  assert (0 < Qnat (length l))%Q as Hpos.
  { apply Qnat_pos. destruct l; [done | simpl; lia]. }
  split.
  - apply Qle_shift_div_l; [done | lra].
  - apply Qle_shift_div_r; [done | lra].
Qed.
End GuardrailFacts.

Section GuardrailProperties.
Import Guardrail Samples MoreSamples.

(** How [invoke_rag_eval_guardrail] fails: an exception of the endpoint is
    re-raised unchanged; a response with no assessment raises [IndexError];
    a first assessment without ["contextualGroundingPolicy"] raises
    [KeyError] of that key; filters lacking a GROUNDING or a RELEVANCE
    metric raise [IndexError]. *)
Theorem guardrail_failure_modes
    (apply_guardrail :
       string → string → string → list ContentBlock → result Response)
    (guardrail_id question context response : string) :
  (∀ e,
     apply_guardrail guardrail_id "1" "OUTPUT"
       (guardrail_content question context response) = Raise e →
     invoke_rag_eval_guardrail apply_guardrail guardrail_id question context
       response = Raise e) ∧
  (∀ answer,
     apply_guardrail guardrail_id "1" "OUTPUT"
       (guardrail_content question context response) = Ok answer →
     (assessments answer = [] →
      invoke_rag_eval_guardrail apply_guardrail guardrail_id question
        context response = Raise IndexError) ∧
     (∀ assessment others,
        assessments answer = assessment :: others →
        assessment !! "contextualGroundingPolicy" = None →
        invoke_rag_eval_guardrail apply_guardrail guardrail_id question
          context response = Raise (KeyError "contextualGroundingPolicy")) ∧
     (∀ assessment others policy,
        assessments answer = assessment :: others →
        assessment !! "contextualGroundingPolicy" = Some policy →
        Forall (λ m, type m ≠ "GROUNDING") (filters policy) ∨
        Forall (λ m, type m ≠ "RELEVANCE") (filters policy) →
        invoke_rag_eval_guardrail apply_guardrail guardrail_id question
          context response = Raise IndexError)).
Proof.
  unfold invoke_rag_eval_guardrail, guardrail_content. split.
  - intros e ->. reflexivity.
  - intros answer ->. simpl. split; [|split].
    + intros ->. reflexivity.
    + intros assessment others -> Hkey. simpl. unfold getitem.
      rewrite Hkey. reflexivity.
    + intros assessment others policy -> Hkey Hmissing. simpl.
      unfold getitem. rewrite Hkey. simpl.
      destruct Hmissing as [Hg|Hr].
      * rewrite (no_metric _ _ Hg). reflexivity.
      * rewrite (no_metric _ _ Hr).
        destruct (metric_cases "GROUNDING" (filters policy)) as [[g ->]| ->];
          reflexivity.
Qed.

Lemma guardrail_failure_modes_toy :
  toy_apply_guardrail "g" "1" "OUTPUT" (guardrail_content "vague" "c" "a")
  = Ok (toy_response (drop 1 toy_filters)) ∧
  invoke_rag_eval_guardrail toy_apply_guardrail "g" "vague" "c" "a"
  = Raise IndexError.
Proof.
  assert (toy_apply_guardrail "g" "1" "OUTPUT"
            (guardrail_content "vague" "c" "a")
          = Ok (toy_response (drop 1 toy_filters))) as Hanswer
    by (vm_compute; reflexivity).
  split; [exact Hanswer|].
  apply (proj2 (proj2 (proj2 (guardrail_failure_modes toy_apply_guardrail
           "g" "vague" "c" "a") _ Hanswer))
           _ [] {| filters := drop 1 toy_filters |} eq_refl).
  - vm_compute. reflexivity.
  - left. repeat constructor; discriminate.
Defined.

(** The scores [invoke_rag_eval_guardrail] returns are those of the first
    GROUNDING and the first RELEVANCE metric of the first assessment's
    contextual grounding policy; later metrics of either type and later
    assessments are not read. *)
Theorem guardrail_reads_first_metrics
    (apply_guardrail :
       string → string → string → list ContentBlock → result Response)
    (guardrail_id question context response : string) (answer : Response)
    (assessment : gmap string Policy) (others : list (gmap string Policy))
    (policy : Policy) (grounding relevance : Metric)
    (before_g after_g before_r after_r : list Metric) :
  apply_guardrail guardrail_id "1" "OUTPUT"
    (guardrail_content question context response) = Ok answer →
  assessments answer = assessment :: others →
  assessment !! "contextualGroundingPolicy" = Some policy →
  filters policy = before_g ++ grounding :: after_g →
  Forall (λ m, type m ≠ "GROUNDING") before_g →
  type grounding = "GROUNDING" →
  filters policy = before_r ++ relevance :: after_r →
  Forall (λ m, type m ≠ "RELEVANCE") before_r →
  type relevance = "RELEVANCE" →
  invoke_rag_eval_guardrail apply_guardrail guardrail_id question context
    response =
  Ok {| grounding_score := score grounding;
        relevance_score := score relevance |}.
Proof.
  intros Hanswer Hassess Hkey Hg Hbg Htg Hr Hbr Htr.
  unfold invoke_rag_eval_guardrail. fold (guardrail_content question context
    response). rewrite Hanswer. simpl. rewrite Hassess. simpl.
  unfold getitem. rewrite Hkey. simpl.
  rewrite Hg at 1. rewrite (first_metric _ _ _ _ Hbg Htg). simpl.
  rewrite Hr. rewrite (first_metric _ _ _ _ Hbr Htr). reflexivity.
Qed.

Lemma guardrail_reads_first_metrics_toy :
  repeating_apply_guardrail "g" "1" "OUTPUT" (guardrail_content "q" "c" "a")
  = Ok repeating_response ∧
  invoke_rag_eval_guardrail repeating_apply_guardrail "g" "q" "c" "a"
  = Ok {| grounding_score := 9 # 10; relevance_score := 7 # 10 |}.
Proof.
  assert (repeating_apply_guardrail "g" "1" "OUTPUT"
            (guardrail_content "q" "c" "a") = Ok repeating_response)
    as Hanswer by reflexivity.
  split; [exact Hanswer|].
  apply (guardrail_reads_first_metrics repeating_apply_guardrail
           "g" "q" "c" "a" _ _ [∅] {| filters := repeated_filters |}
           {| type := "GROUNDING"; score := 9 # 10 |}
           {| type := "RELEVANCE"; score := 7 # 10 |}
           (take 1 repeated_filters) (drop 2 repeated_filters)
           [] (drop 1 repeated_filters) Hanswer eq_refl).
  - vm_compute. reflexivity.
  - reflexivity.
  - repeat constructor; discriminate.
  - reflexivity.
  - reflexivity.
  - constructor.
  - reflexivity.
Defined.

(** A batch in which one of the three lists is empty scores nothing and
    raises [ZeroDivisionError]: no mean is returned for an empty batch. *)
Theorem empty_batch_raises
    (apply_guardrail :
       string → string → string → list ContentBlock → result Response)
    (guardrail_id : string) (questions : list string)
    (contexts : list (list string)) (answers : list string) :
  questions = [] ∨ contexts = [] ∨ answers = [] →
  evaluate_rag_guardrail apply_guardrail guardrail_id questions contexts
    answers = Raise ZeroDivisionError.
Proof.
  intros Hempty. unfold evaluate_rag_guardrail.
  rewrite (zip3_nil _ _ _ Hempty). reflexivity.
Qed.

Lemma empty_batch_raises_toy :
  (["q"] = [] ∨ ([] : list (list string)) = [] ∨ ["a"] = []) ∧
  evaluate_rag_guardrail toy_apply_guardrail "g" ["q"] [] ["a"]
  = Raise ZeroDivisionError.
Proof.
  assert (["q"] = [] ∨ ([] : list (list string)) = [] ∨ ["a"] = [])
    as Hempty by (right; left; reflexivity).
  split; [exact Hempty|].
  exact (empty_batch_raises toy_apply_guardrail "g" ["q"] [] ["a"] Hempty).
Defined.

(** The batch is the first [m] triples, [m] the length of the shortest of
    the three lists: when means are returned, exactly [m] calls were made
    and succeeded, the i-th on the i-th question, the i-th context joined by
    newlines and the i-th answer, and the means are the sums of their scores
    over [m]; and means are returned whenever [m] is positive and those [m]
    calls succeed, whatever the longer lists hold past [m]. *)
Theorem batch_scores_shortest_prefix
    (apply_guardrail :
       string → string → string → list ContentBlock → result Response)
    (guardrail_id : string) (questions : list string)
    (contexts : list (list string)) (answers : list string) :
  (∀ grounding relevance,
     evaluate_rag_guardrail apply_guardrail guardrail_id questions contexts
       answers = Ok (grounding, relevance) →
     ∃ rows,
       length rows = shortest questions contexts answers ∧
       (0 < shortest questions contexts answers)%nat ∧
       (∀ i row, rows !! i = Some row →
          ∃ question context answer,
            questions !! i = Some question ∧ contexts !! i = Some context ∧
            answers !! i = Some answer ∧
            invoke_rag_eval_guardrail apply_guardrail guardrail_id question
              (String.concat newline context) answer = Ok row) ∧
       grounding = (py_sum (map grounding_score rows)
                    / Qnat (shortest questions contexts answers))%Q ∧
       relevance = (py_sum (map relevance_score rows)
                    / Qnat (shortest questions contexts answers))%Q) ∧
  ((0 < shortest questions contexts answers)%nat →
   (∀ i question context answer,
      questions !! i = Some question → contexts !! i = Some context →
      answers !! i = Some answer →
      is_Ok (invoke_rag_eval_guardrail apply_guardrail guardrail_id question
               (String.concat newline context) answer)) →
   is_Ok (evaluate_rag_guardrail apply_guardrail guardrail_id questions
            contexts answers)).
Proof.
  unfold shortest. split.
  - intros g r (rows & Hrows & Hne & -> & ->)%evaluate_rag_guardrail_Ok.
    assert (length rows = length (zip3 questions contexts answers)) as Hlen.
    { apply (f_equal length) in Hrows. by rewrite !length_map in Hrows. }
    rewrite zip3_length in Hlen. exists rows. rewrite <- Hlen.
    split; [done|]. split; [destruct rows; [done | simpl; lia]|].
    split; [|done].
    intros i row Hi.
    assert (map Ok rows !! i = Some (Ok row)) as Hrow
      by (by rewrite list_lookup_fmap, Hi).
    rewrite <- Hrows, list_lookup_fmap in Hrow.
    destruct (zip3 questions contexts answers !! i) as [[[q c] a]|] eqn:Ht;
      [|done].
    apply zip3_lookup in Ht as (Hq & Hc & Ha). injection Hrow as Hrow.
    exists q, c, a. done.
  - intros Hpos Hcalls. unfold evaluate_rag_guardrail.
    assert (Forall is_Ok (map (submit apply_guardrail guardrail_id)
                              (zip3 questions contexts answers))) as Hall.
    { apply Forall_forall. intros res Hres%list_elem_of_In.
      apply in_map_iff in Hres as ([[q c] a] & <- & Hin%list_elem_of_In).
      apply list_elem_of_lookup in Hin as [i Hi].
      apply zip3_lookup in Hi as (Hq & Hc & Ha). by eapply Hcalls. }
    destruct (collect_total _ Hall) as [rows Hrows]. rewrite Hrows. simpl.
    apply collect_Ok in Hrows. apply (f_equal length) in Hrows.
    rewrite !length_map, zip3_length in Hrows.
    rewrite !length_map, <- Hrows.
    rewrite !truediv_Ok by (apply Qnat_nonzero; lia). by eexists.
Qed.

(** Three questions and answers but two contexts: two calls are made, the
    throttled third question is never sent, and the means are over the first
    two triples. *)
Lemma batch_scores_shortest_prefix_toy :
  evaluate_rag_guardrail toy_apply_guardrail "g"
    ["fine"; "ok"; "bad"] [["c1"; "c2"]; ["c"]] ["a1"; "a2"; "a3"]
  = Ok (180 # 200, 160 # 200)%Q ∧
  ∃ rows,
    length rows = 2%nat ∧
    (180 # 200)%Q = (py_sum (map grounding_score rows) / Qnat 2)%Q.
Proof.
  assert (evaluate_rag_guardrail toy_apply_guardrail "g"
            ["fine"; "ok"; "bad"] [["c1"; "c2"]; ["c"]] ["a1"; "a2"; "a3"]
          = Ok (180 # 200, 160 # 200)%Q) as Hrun by (vm_compute; reflexivity).
  split; [exact Hrun|].
  destruct (proj1 (batch_scores_shortest_prefix toy_apply_guardrail "g"
                     ["fine"; "ok"; "bad"] [["c1"; "c2"]; ["c"]]
                     ["a1"; "a2"; "a3"]) _ _ Hrun)
    as (rows & Hlen & _ & _ & Hg & _).
  exists rows. split; [exact Hlen | exact Hg].
Defined.

(** When every score the endpoint gave for the batch lies in [[0, 1]], so
    do both means. *)
Theorem batch_means_in_unit_interval
    (apply_guardrail :
       string → string → string → list ContentBlock → result Response)
    (guardrail_id : string) (questions : list string)
    (contexts : list (list string)) (answers : list string)
    (grounding relevance : Q) :
  (∀ triple row,
     triple ∈ zip3 questions contexts answers →
     submit apply_guardrail guardrail_id triple = Ok row →
     (0 <= grounding_score row <= 1)%Q ∧
     (0 <= relevance_score row <= 1)%Q) →
  evaluate_rag_guardrail apply_guardrail guardrail_id questions contexts
    answers = Ok (grounding, relevance) →
  (0 <= grounding <= 1)%Q ∧ (0 <= relevance <= 1)%Q.
Proof.
  intros Hscores (rows & Hrows & Hne & -> & ->)%evaluate_rag_guardrail_Ok.
  assert (Forall (λ row, (0 <= grounding_score row <= 1)%Q ∧
                         (0 <= relevance_score row <= 1)%Q) rows) as Hall.
  { apply Forall_forall. intros row Hrow%list_elem_of_In.
    apply (in_map Ok) in Hrow. rewrite <- Hrows in Hrow.
    apply in_map_iff in Hrow as (triple & Htriple & Hin%list_elem_of_In).
    by apply (Hscores triple). }
  pose proof (mean_bounds (map grounding_score rows) 0 1) as Hg.
  pose proof (mean_bounds (map relevance_score rows) 0 1) as Hr.
  rewrite length_map in Hg, Hr.
  split; [apply Hg | apply Hr]; try (by destruct rows).
  - apply Forall_fmap. eapply Forall_impl; [exact Hall|]. by intros row [? _].
  - apply Forall_fmap. eapply Forall_impl; [exact Hall|]. by intros row [_ ?].
Qed.

Lemma batch_means_in_unit_interval_toy :
  evaluate_rag_guardrail toy_apply_guardrail "g"
    ["fine"; "ok"] [["c1"; "c2"]; ["c"]] ["a1"; "a2"]
  = Ok (180 # 200, 160 # 200)%Q ∧
  (0 <= 180 # 200 <= 1)%Q ∧ (0 <= 160 # 200 <= 1)%Q.
Proof.
  assert (evaluate_rag_guardrail toy_apply_guardrail "g"
            ["fine"; "ok"] [["c1"; "c2"]; ["c"]] ["a1"; "a2"]
          = Ok (180 # 200, 160 # 200)%Q) as Hrun by (vm_compute; reflexivity).
  split; [exact Hrun|].
  apply (batch_means_in_unit_interval toy_apply_guardrail "g"
           ["fine"; "ok"] [["c1"; "c2"]; ["c"]] ["a1"; "a2"] _ _);
    [|exact Hrun].
  intros triple row Hin%list_elem_of_In. simpl in Hin.
  destruct Hin as [<-|[<-|[]]]; vm_compute; intros [= <-];
    repeat split; discriminate.
Defined.
End GuardrailProperties.

(** ** The persisted vector store: other files, reloading, failures *)

Section VectorStoreProperties.
Import VectorStore Samples.



(** Round trip: when pickle and the store's serialisation read back what
    they wrote, running the cell a second time, after a run that found no
    file, returns the store the first run built (whatever documents the
    second run is given) and leaves the files as the first run left them. *)
Theorem vector_store_reload_round_trip
    (VecDB : Type) (from_documents : list Document → VecDB)
    (serialize_to_bytes : VecDB → bytes)
    (deserialize_from_bytes : bytes → result VecDB)
    (pickle_dump : bytes → bytes) (pickle_load : bytes → result bytes)
    (documents documents' : list Document) (fs : gmap string bytes) :
  (∀ b, pickle_load (pickle_dump b) = Ok b) →
  (∀ vec_db,
     deserialize_from_bytes (serialize_to_bytes vec_db) = Ok vec_db) →
  fs !! vector_store_file = None →
  cell9 VecDB from_documents serialize_to_bytes deserialize_from_bytes
    pickle_dump pickle_load documents'
    (cell9 VecDB from_documents serialize_to_bytes deserialize_from_bytes
       pickle_dump pickle_load documents fs).1 =
  ((cell9 VecDB from_documents serialize_to_bytes deserialize_from_bytes
      pickle_dump pickle_load documents fs).1,
   Ok (from_documents documents)).
Proof.
  intros Hpickle Hstore Hfile. unfold cell9 at 2 3, exists_.
  rewrite Hfile, bool_decide_eq_false_2 by (by intros [? ?]). simpl.
  unfold cell9, exists_, open_rb.
  rewrite lookup_insert_eq, bool_decide_eq_true_2 by (by eexists). simpl.
  rewrite Hpickle. simpl. by rewrite Hstore.
Qed.

Lemma vector_store_reload_round_trip_toy :
  (∀ b, toy_pickle_load (toy_pickle_dump b) = Ok b) ∧
  (∅ : gmap string bytes) !! vector_store_file = None ∧
  toy_cell9 [mk_doc "b"] (toy_cell9 [mk_doc "a"] ∅).1 =
  ((toy_cell9 [mk_doc "a"] ∅).1, Ok (toy_from_documents [mk_doc "a"])).
Proof.
  assert (∀ b, toy_pickle_load (toy_pickle_dump b) = Ok b) as Hpickle
    by reflexivity.
  assert ((∅ : gmap string bytes) !! vector_store_file = None) as Hfile
    by apply lookup_empty.
  split; [exact Hpickle|]. split; [exact Hfile|].
  exact (vector_store_reload_round_trip (list Byte.byte) toy_from_documents
           (λ b, b) Ok toy_pickle_dump toy_pickle_load
           [mk_doc "a"] [mk_doc "b"] ∅ Hpickle (λ v, eq_refl) Hfile).
Defined.

End VectorStoreProperties.
